(** * kafkaconnector: a shallow embedding of the Connector and the Consumer

    The Go package [kafka] wraps a Kafka client library.  The embedding
    below follows the two source files:

    - the connector ([Connector], its setters, [StartConsumer],
      [StartProducer], [EnableManualErrorHandling], the three [Close*]
      methods and the accessors);
    - the consumer-group handler of [consumer.go] ([Setup], [Cleanup],
      [Close], [ConsumeClaim]).

    Go's runtime is made explicit where the code relies on it: channels
    live in a store and are named by their index, [make] allocates a new
    index, [close] panics on a nil or an already closed channel, a [go]
    statement appends to the list of spawned goroutines, and [log] appends
    a line to the log.  Calls into the client library are recorded as
    events; what the library answers is an argument of the operation, and
    the world keeps which producers the library has closed, because closing
    one of them again is fatal. *)

From Stdlib Require Import ZArith NArith Ascii String.
From Stdlib.Strings Require Import Byte.
From stdpp Require Import base option list strings gmap.

Local Open Scope string_scope.
Local Open Scope list_scope.

(** * The model *)

(** ** Results of running Go code *)

(** A method either returns (with a value and the new state) or panics. *)
Inductive Outcome (St A : Type) : Type :=
| Done (a : A) (s : St)
| Panic (msg : string).
Arguments Done {St A} a s.
Arguments Panic {St A} msg.

Definition M (St A : Type) : Type := St -> Outcome St A.

Definition ret {St A} (a : A) : M St A := fun s => Done a s.

Definition bind {St A B} (m : M St A) (k : A -> M St B) : M St B :=
  fun s => match m s with
           | Done a s' => k a s'
           | Panic msg => Panic msg
           end.

Notation "x <~ m ;; k" := (bind m (fun x => k))
  (at level 100, m at next level, right associativity).
Notation "m ;;; k" := (bind m (fun _ => k))
  (at level 100, right associativity).

Definition panics {St A} (o : Outcome St A) : bool :=
  match o with Panic _ => true | Done _ _ => false end.

(** ** Channels *)

(** A channel value is [None] (Go's nil channel) or the index of a channel
    in the store. *)
Abbreviation ChanRef := (option nat).

Record Chan : Type := mkChan {
  chan_cap : N;
  chan_closed : bool
}.

Abbreviation ChanStore := (list Chan).

(** [make(chan T, n)]: the runtime refuses a size above its limit
    ([makechan: size out of range]); otherwise the channel is new. *)
Definition make_chan (limit n : N) (h : ChanStore) : Outcome ChanStore nat :=
  if (limit <? n)%N then Panic "makechan: size out of range"
  else Done (List.length h) (h ++ [mkChan n false]).

(** [close(c)]. *)
Definition close_chan (c : ChanRef) (h : ChanStore) : Outcome ChanStore unit :=
  match c with
  | None => Panic "close of nil channel"
  | Some i =>
      match h !! i with
      | None => Panic "close of nil channel"
      | Some ch =>
          if chan_closed ch then Panic "close of closed channel"
          else Done tt (<[i := mkChan (chan_cap ch) true]> h)
      end
  end.

(** ** strings.Split on a one-character separator *)

Fixpoint Split (s : string) (sep : Ascii.ascii) : list string :=
  match s with
  | EmptyString => [EmptyString]
  | String c rest =>
      if Ascii.eqb c sep then EmptyString :: Split rest sep
      else match Split rest sep with
           | w :: ws => String c w :: ws
           | [] => [String c EmptyString]
           end
  end.

(** ** The connector *)

(** Go's [error]: [None] is nil, [Some msg] an error with its message. *)
Definition error : Type := option string.

Record Connector : Type := mkConnector {
  user : string;
  pass : string;
  consumer : option nat;          (* *cluster.Consumer, None = nil *)
  producer : option nat;          (* sarama.AsyncProducer, None = nil *)
  consumerChannel : ChanRef;
  producerChannel : ChanRef;
  manualErrFlag : bool;
  manualErrSignal : ChanRef;
  channelLength : N               (* uint: no arithmetic is done on it *)
}.

(** The zero value [Connector{}]. *)
Definition zeroConnector : Connector :=
  mkConnector "" "" None None None None false None 0%N.

Record ConsumerConfig : Type := mkConsumerConfig {
  Net_TLS_Enable : bool;
  Net_SASL_Enable : bool;
  Net_SASL_User : string;
  Net_SASL_Password : string;
  Consumer_Return_Errors : bool;
  Group_Return_Notifications : bool;
  Consumer_Offsets_Initial : Z
}.

Record ProducerConfig : Type := mkProducerConfig {
  Producer_Net_TLS_Enable : bool;
  Producer_Net_SASL_Enable : bool;
  Producer_Net_SASL_User : string;
  Producer_Net_SASL_Password : string;
  Producer_Return_Successes : bool;
  Producer_Return_Errors : bool
}.

(** [sarama.NewConfig()], for these fields: no TLS, no SASL, no
    credentials, successes not returned, errors returned. *)
Definition NewConfig : ProducerConfig :=
  mkProducerConfig false false "" "" false true.

Definition set_Producer_Return_Successes (v : bool) (c : ProducerConfig)
  : ProducerConfig :=
  mkProducerConfig (Producer_Net_TLS_Enable c) (Producer_Net_SASL_Enable c)
    (Producer_Net_SASL_User c) (Producer_Net_SASL_Password c)
    v (Producer_Return_Errors c).

Definition set_Producer_Return_Errors (v : bool) (c : ProducerConfig)
  : ProducerConfig :=
  mkProducerConfig (Producer_Net_TLS_Enable c) (Producer_Net_SASL_Enable c)
    (Producer_Net_SASL_User c) (Producer_Net_SASL_Password c)
    (Producer_Return_Successes c) v.

(** Calls into the client library and the standard library. *)
Inductive LibCall : Type :=
| CallSystemCertPool
| CallNewConsumer (brokers : list string) (group : string)
                  (topics : list string) (conf : ConsumerConfig)
| CallNewAsyncProducer (brokers : list string) (conf : ProducerConfig)
| CallConsumerClose (h : nat)
| CallProducerClose (h : nat).

(** Goroutines started by a [go] statement.  The two bridges receive their
    arguments by value; the loggers are closures over the connector. *)
Inductive Goroutine : Type :=
| GoDecodeMessages (h : option nat) (out : ChanRef)
| GoEncodeMessages (h : option nat) (topic : string) (inp : ChanRef)
| GoConsumerLogger
| GoProducerLogger.

(** The channels the client library owns, named by their session. *)
Inductive LibChan : Type :=
| ConsumerErrorsOf (h : nat)
| ConsumerNotificationsOf (h : nat)
| ProducerErrorsOf (h : nat).

Definition is_logger (g : Goroutine) : bool :=
  match g with
  | GoConsumerLogger | GoProducerLogger => true
  | _ => false
  end.

Record World : Type := mkWorld {
  conn : Connector;
  chans : ChanStore;
  spawned : list Goroutine;
  logged : list string;
  calls : list LibCall;
  producersClosed : list nat     (* the producers the library has closed *)
}.

Definition zeroWorld : World := mkWorld zeroConnector [] [] [] [] [].

Definition getConn : M World Connector := fun w => Done (conn w) w.

Definition modConn (f : Connector -> Connector) : M World unit :=
  fun w => Done tt (mkWorld (f (conn w)) (chans w) (spawned w) (logged w) (calls w)
                     (producersClosed w)).

Definition go (g : Goroutine) : M World unit :=
  fun w => Done tt (mkWorld (conn w) (chans w) (spawned w ++ [g]) (logged w) (calls w)
                     (producersClosed w)).

Definition logLine (l : string) : M World unit :=
  fun w => Done tt (mkWorld (conn w) (chans w) (spawned w) (logged w ++ [l]) (calls w)
                     (producersClosed w)).

Definition call (c : LibCall) : M World unit :=
  fun w => Done tt (mkWorld (conn w) (chans w) (spawned w) (logged w) (calls w ++ [c])
                     (producersClosed w)).

Definition onChans {A} (f : ChanStore -> Outcome ChanStore A) : M World A :=
  fun w => match f (chans w) with
           | Done a h => Done a (mkWorld (conn w) h (spawned w) (logged w) (calls w)
                                  (producersClosed w))
           | Panic msg => Panic msg
           end.

Definition set_user (v : string) (c : Connector) : Connector :=
  mkConnector v (pass c) (consumer c) (producer c) (consumerChannel c)
    (producerChannel c) (manualErrFlag c) (manualErrSignal c) (channelLength c).
Definition set_pass (v : string) (c : Connector) : Connector :=
  mkConnector (user c) v (consumer c) (producer c) (consumerChannel c)
    (producerChannel c) (manualErrFlag c) (manualErrSignal c) (channelLength c).
Definition set_consumer (v : option nat) (c : Connector) : Connector :=
  mkConnector (user c) (pass c) v (producer c) (consumerChannel c)
    (producerChannel c) (manualErrFlag c) (manualErrSignal c) (channelLength c).
Definition set_producer (v : option nat) (c : Connector) : Connector :=
  mkConnector (user c) (pass c) (consumer c) v (consumerChannel c)
    (producerChannel c) (manualErrFlag c) (manualErrSignal c) (channelLength c).
Definition set_consumerChannel (v : ChanRef) (c : Connector) : Connector :=
  mkConnector (user c) (pass c) (consumer c) (producer c) v
    (producerChannel c) (manualErrFlag c) (manualErrSignal c) (channelLength c).
Definition set_producerChannel (v : ChanRef) (c : Connector) : Connector :=
  mkConnector (user c) (pass c) (consumer c) (producer c) (consumerChannel c)
    v (manualErrFlag c) (manualErrSignal c) (channelLength c).
Definition set_manualErrFlag (v : bool) (c : Connector) : Connector :=
  mkConnector (user c) (pass c) (consumer c) (producer c) (consumerChannel c)
    (producerChannel c) v (manualErrSignal c) (channelLength c).
Definition set_manualErrSignal (v : ChanRef) (c : Connector) : Connector :=
  mkConnector (user c) (pass c) (consumer c) (producer c) (consumerChannel c)
    (producerChannel c) (manualErrFlag c) v (channelLength c).
Definition set_channelLength (v : N) (c : Connector) : Connector :=
  mkConnector (user c) (pass c) (consumer c) (producer c) (consumerChannel c)
    (producerChannel c) (manualErrFlag c) (manualErrSignal c) v.

(** [os.Getenv]: the value of the variable, empty when it is not set. *)
Definition Getenv (env : gmap string string) (key : string) : string :=
  default "" (env !! key).

Definition isNil {A} (o : option A) : bool :=
  match o with None => true | Some _ => false end.

(** The client library's [Close] of an [AsyncProducer].  A producer must be
    closed once: [Close] shuts its input channel, and a second [Close] of
    the same producer sends on that closed channel, which ends the process.
    (The [Close] of a consumer runs its body once per consumer and returns
    when called again; it is a recorded call and nothing more.) *)
Definition libProducerClose (h : nat) : M World unit :=
  call (CallProducerClose h) ;;;
  fun w =>
    if bool_decide (h ∈ producersClosed w)
    then Panic "send on closed channel"
    else Done tt (mkWorld (conn w) (chans w) (spawned w) (logged w) (calls w)
                    (h :: producersClosed w)).

(** A producer that [sarama.NewAsyncProducer] has just returned is open. *)
Definition libProducerOpened (h : nat) : M World unit :=
  fun w => Done tt (mkWorld (conn w) (chans w) (spawned w) (logged w) (calls w)
                      (filter (fun x => x <> h) (producersClosed w))).

Section Connector.

(** The largest size [make] accepts for a channel of [*FlowMessage] on the
    platform. *)
Variable maxChanLen : N.

Definition SetAuth (u p : string) : M World unit :=
  modConn (set_user u) ;;;
  modConn (set_pass p).

Definition SetAuthFromEnv (env : gmap string string) : M World error :=
  modConn (set_user (Getenv env "KAFKA_SASL_USER")) ;;;
  modConn (set_pass (Getenv env "KAFKA_SASL_PASS")) ;;;
  c <~ getConn ;;
  if String.eqb (user c) "" || String.eqb (pass c) ""
  then ret (Some "Setting Kafka SASL info from Environment was unsuccessful.")
  else ret None.

Definition SetAuthAnon : M World unit :=
  modConn (set_user "anon") ;;;
  modConn (set_pass "anon").

Definition EnableManualErrorHandling : M World unit :=
  modConn (set_manualErrFlag true) ;;;
  c <~ getConn ;;
  if isNil (manualErrSignal c) then ret tt
  else onChans (close_chan (manualErrSignal c)).

Definition SetChannelLength (l : N) : M World unit :=
  modConn (set_channelLength l).

(** The prologue shared by the two [Start*] methods. *)
Definition ensureSignal : M World unit :=
  c <~ getConn ;;
  if negb (manualErrFlag c) && isNil (manualErrSignal c)
  then ch <~ onChans (make_chan maxChanLen 0) ;;
       modConn (set_manualErrSignal (Some ch))
  else ret tt.

(** [pool] is what [x509.SystemCertPool] answers and [dial] what
    [cluster.NewConsumer] answers: a consumer, or nil with an error. *)
Definition StartConsumer (broker : string) (topics : list string)
    (consumergroup : string) (offset : Z)
    (pool : error) (dial : nat + string) : M World error :=
  ensureSignal ;;;
  let brokers := Split broker ","%char in
  call CallSystemCertPool ;;;
  match pool with
  | Some err =>
      logLine ("TLS Error: " +:+ err) ;;;
      ret (Some err)
  | None =>
      c <~ getConn ;;
      let consConf :=
        mkConsumerConfig true true (user c) (pass c) true true offset in
      logLine ("Trying to connect to Kafka as SASL/PLAIN user '"
               +:+ Net_SASL_User consConf +:+ "'...") ;;;
      call (CallNewConsumer brokers consumergroup topics consConf) ;;;
      match dial with
      | inr err =>
          modConn (set_consumer None) ;;;
          ret (Some err)
      | inl h =>
          modConn (set_consumer (Some h)) ;;;
          logLine "Kafka TLS connection established." ;;;
          c <~ getConn ;;
          ch <~ onChans (make_chan maxChanLen (channelLength c)) ;;
          modConn (set_consumerChannel (Some ch)) ;;;
          c <~ getConn ;;
          go (GoDecodeMessages (consumer c) (consumerChannel c)) ;;;
          c <~ getConn ;;
          (if negb (manualErrFlag c) then go GoConsumerLogger else ret tt) ;;;
          ret None
      end
  end.

(** [dial] is what [sarama.NewAsyncProducer] answers. *)
Definition StartProducer (broker : string) (topic : string)
    (dial : nat + string) : M World error :=
  ensureSignal ;;;
  let brokers := Split broker ","%char in
  let prodConf :=
    set_Producer_Return_Errors true
      (set_Producer_Return_Successes false NewConfig) in
  call (CallNewAsyncProducer brokers prodConf) ;;;
  match dial with
  | inr err =>
      modConn (set_producer None) ;;;
      ret (Some err)
  | inl h =>
      libProducerOpened h ;;;
      modConn (set_producer (Some h)) ;;;
      c <~ getConn ;;
      ch <~ onChans (make_chan maxChanLen (channelLength c)) ;;
      modConn (set_producerChannel (Some ch)) ;;;
      c <~ getConn ;;
      go (GoEncodeMessages (producer c) topic (producerChannel c)) ;;;
      c <~ getConn ;;
      (if negb (manualErrFlag c) then go GoProducerLogger else ret tt) ;;;
      ret None
  end.

Definition Close : M World unit :=
  c <~ getConn ;;
  match consumer c with
  | Some h =>
      call (CallConsumerClose h) ;;;
      logLine "Kafka Consumer connection closed."
  | None => ret tt
  end ;;;
  c <~ getConn ;;
  match producer c with
  | Some h =>
      libProducerClose h ;;;
      logLine "Kafka Producer connection closed."
  | None => ret tt
  end.

Definition CloseConsumer : M World unit :=
  c <~ getConn ;;
  match consumer c with
  | Some h =>
      call (CallConsumerClose h) ;;;
      logLine "Kafka Consumer connection closed."
  | None =>
      logLine "WARNING: CloseConsumer called, but no Consumer was initialized."
  end.

Definition CloseProducer : M World unit :=
  c <~ getConn ;;
  match producer c with
  | Some h =>
      libProducerClose h ;;;
      logLine "Kafka Producer connection closed."
  | None =>
      logLine "WARNING: CloseProducer called, but no Producer was initialized."
  end.

(** The accessors.  [ConsumerErrors], [ConsumerNotifications] and
    [ProducerErrors] call a method of the session, which dereferences it. *)
Definition ConsumerChannel : M World ChanRef :=
  c <~ getConn ;; ret (consumerChannel c).

Definition ProducerChannel : M World ChanRef :=
  c <~ getConn ;; ret (producerChannel c).

Definition nilDeref {A} : M World A :=
  fun _ => Panic "invalid memory address or nil pointer dereference".

Definition ConsumerErrors : M World LibChan :=
  c <~ getConn ;;
  match consumer c with
  | Some h => ret (ConsumerErrorsOf h)
  | None => nilDeref
  end.

Definition ConsumerNotifications : M World LibChan :=
  c <~ getConn ;;
  match consumer c with
  | Some h => ret (ConsumerNotificationsOf h)
  | None => nilDeref
  end.

Definition ProducerErrors : M World LibChan :=
  c <~ getConn ;;
  match producer c with
  | Some h => ret (ProducerErrorsOf h)
  | None => nilDeref
  end.

(** *** Calling sequences *)

(** One call of an exported method, with the answers of the environment. *)
Inductive Op : Type :=
| OpSetAuth (u p : string)
| OpSetAuthFromEnv (env : gmap string string)
| OpSetAuthAnon
| OpEnableManualErrorHandling
| OpSetChannelLength (l : N)
| OpStartConsumer (broker : string) (topics : list string)
                  (consumergroup : string) (offset : Z)
                  (pool : error) (dial : nat + string)
| OpStartProducer (broker : string) (topic : string) (dial : nat + string)
| OpClose
| OpCloseConsumer
| OpCloseProducer
| OpConsumerChannel
| OpProducerChannel
| OpConsumerErrors
| OpConsumerNotifications
| OpProducerErrors.

Definition discard {A} (m : M World A) : M World unit := m ;;; ret tt.

Definition exec (op : Op) : M World unit :=
  match op with
  | OpSetAuth u p => SetAuth u p
  | OpSetAuthFromEnv env => discard (SetAuthFromEnv env)
  | OpSetAuthAnon => SetAuthAnon
  | OpEnableManualErrorHandling => EnableManualErrorHandling
  | OpSetChannelLength l => SetChannelLength l
  | OpStartConsumer b t g o pool dial => discard (StartConsumer b t g o pool dial)
  | OpStartProducer b t dial => discard (StartProducer b t dial)
  | OpClose => Close
  | OpCloseConsumer => CloseConsumer
  | OpCloseProducer => CloseProducer
  | OpConsumerChannel => discard ConsumerChannel
  | OpProducerChannel => discard ProducerChannel
  | OpConsumerErrors => discard ConsumerErrors
  | OpConsumerNotifications => discard ConsumerNotifications
  | OpProducerErrors => discard ProducerErrors
  end.

Fixpoint run (ops : list Op) : M World unit :=
  match ops with
  | [] => ret tt
  | op :: rest => exec op ;;; run rest
  end.

End Connector.

(** ** The consumer-group handler (consumer.go) *)

Record ConsumerMessage : Type := mkConsumerMessage {
  Topic : string;
  Partition : Z;
  Offset : Z;
  Value : list Byte.byte
}.

(** [sarama.ConsumerGroupSession], as far as the handler uses it. *)
Class ConsumerGroupSession (S : Type) : Type := {
  MarkMessage : S -> ConsumerMessage -> string -> S
}.

Record Consumer : Type := mkConsumer {
  ready : ChanRef;
  flows : ChanRef;
  cancel : option nat             (* context.CancelFunc, None = nil *)
}.

Record HandlerWorld : Type := mkHandlerWorld {
  cons : Consumer;
  hchans : ChanStore;
  cancelled : list nat
}.

Definition onHandlerChans {A} (f : ChanStore -> Outcome ChanStore A)
  : M HandlerWorld A :=
  fun w => match f (hchans w) with
           | Done a h => Done a (mkHandlerWorld (cons w) h (cancelled w))
           | Panic msg => Panic msg
           end.

Definition getCons : M HandlerWorld Consumer := fun w => Done (cons w) w.

Definition modCons (f : Consumer -> Consumer) : M HandlerWorld unit :=
  fun w => Done tt (mkHandlerWorld (f (cons w)) (hchans w) (cancelled w)).

Definition set_flows (v : ChanRef) (c : Consumer) : Consumer :=
  mkConsumer (ready c) v (cancel c).

(** [Setup]: the flows channel is unbuffered, which [make] accepts under
    any limit. *)
Definition Setup : M HandlerWorld error :=
  ch <~ onHandlerChans (make_chan 0 0) ;;
  modCons (set_flows (Some ch)) ;;;
  c <~ getCons ;;
  onHandlerChans (close_chan (ready c)) ;;;
  ret None.

Definition Cleanup : M HandlerWorld error := ret None.

Definition Consumer_Close : M HandlerWorld unit :=
  fun w => match cancel (cons w) with
           | None => Panic "invalid memory address or nil pointer dereference"
           | Some f => Done tt (mkHandlerWorld (cons w) (hchans w) (cancelled w ++ [f]))
           end.

(** What a send [c <- v] does, looking at the channel only: on a nil
    channel it blocks for ever, on a closed one it panics, otherwise the
    value is handed to the receiver. *)
Inductive SendStatus : Type :=
| SendOk (i : nat)
| SendBlocks
| SendPanics.

Definition send_status (c : ChanRef) (h : ChanStore) : SendStatus :=
  match c with
  | None => SendBlocks
  | Some i =>
      match h !! i with
      | None => SendBlocks
      | Some ch => if chan_closed ch then SendPanics else SendOk i
      end
  end.

Inductive ClaimStatus : Type :=
| Returned (err : error)
| BlockedOnSend
| PanickedOnSend.

Section ConsumeClaim.

Context {FlowMessage : Type}.

(** [proto.Unmarshal] into a new [FlowMessage]: the message, or an error. *)
Variable Unmarshal : list Byte.byte -> FlowMessage + string.

Context {S : Type} `{ConsumerGroupSession S}.

(** What the loop does, in order. *)
Inductive ClaimEvent : Type :=
| EvMark (m : ConsumerMessage)
| EvLog (line : string)
| EvSend (ch : nat) (f : FlowMessage).

Record ClaimRun : Type := mkClaimRun {
  session_after : S;
  events : list ClaimEvent;
  status : ClaimStatus
}.

Definition prepend (evs : list ClaimEvent) (r : ClaimRun) : ClaimRun :=
  mkClaimRun (session_after r) (evs ++ events r) (status r).

(** The loop over [claim.Messages()], here the list of the messages the
    claim delivers before its channel is closed. *)
Fixpoint ConsumeClaim (consumer : Consumer) (h : ChanStore) (session : S)
    (messages : list ConsumerMessage) : ClaimRun :=
  match messages with
  | [] => mkClaimRun session [] (Returned None)
  | message :: rest =>
      let session := MarkMessage session message "" in
      match Unmarshal (Value message) with
      | inr err =>
          prepend [EvMark message;
                   EvLog ("decodeMessages: Received broken message: " +:+ err)]
            (ConsumeClaim consumer h session rest)
      | inl flowMsg =>
          match send_status (flows consumer) h with
          | SendOk ch =>
              prepend [EvMark message; EvSend ch flowMsg]
                (ConsumeClaim consumer h session rest)
          | SendBlocks => mkClaimRun session [EvMark message] BlockedOnSend
          | SendPanics => mkClaimRun session [EvMark message] PanickedOnSend
          end
      end
  end.

(** The values handed to the flows channel, in order. *)
Definition delivered (r : ClaimRun) : list FlowMessage :=
  omap (fun e => match e with EvSend _ f => Some f | _ => None end) (events r).

Definition log_lines (r : ClaimRun) : list string :=
  omap (fun e => match e with EvLog l => Some l | _ => None end) (events r).

Definition marked (r : ClaimRun) : list ConsumerMessage :=
  omap (fun e => match e with EvMark m => Some m | _ => None end) (events r).

(** What one turn of the loop does with [m] when the send goes through. *)
Definition turn_events (ch : nat) (m : ConsumerMessage)
  : list ClaimEvent :=
  [EvMark m;
   match Unmarshal (Value m) with
   | inl flowMsg => EvSend ch flowMsg
   | inr err => EvLog ("decodeMessages: Received broken message: " +:+ err)
   end].

Definition decodes (messages : list ConsumerMessage) : list FlowMessage :=
  omap (fun m => match Unmarshal (Value m) with
                 | inl flowMsg => Some flowMsg
                 | inr _ => None
                 end) messages.

Definition mark_all (session : S) (messages : list ConsumerMessage) : S :=
  foldl (fun s m => MarkMessage s m "") session messages.

(** The flows channel exists and is open, as [Setup] leaves it. *)
Definition flows_open (consumer : Consumer) (h : ChanStore) (ch : nat) : Prop :=
  flows consumer = Some ch /\ chan_closed <$> h !! ch = Some false.

End ConsumeClaim.

(** What sarama documents about the offset a session stores for the
    partition of a claim: marking a message moves it past that message and
    never back.  A group that resumes is delivered the messages from the
    stored offset on. *)
Class OffsetStore (S : Type) `{ConsumerGroupSession S} : Type := {
  stored_offset : S -> Z;
  MarkMessage_offset : forall (s : S) (m : ConsumerMessage) (md : string),
    stored_offset (MarkMessage s m md) = Z.max (stored_offset s) (Offset m + 1)
}.

Definition redelivered {S : Type} `{OffsetStore S} (s : S) (m : ConsumerMessage)
  : bool :=
  (stored_offset s <=? Offset m)%Z.

(** * The vocabulary of the statements *)

Definition withAuth (u p : string) (w : World) : World :=
  mkWorld (set_pass p (set_user u (conn w)))
    (chans w) (spawned w) (logged w) (calls w) (producersClosed w).

Definition authError : string :=
  "Setting Kafka SASL info from Environment was unsuccessful.".

(** The error of the setup, if it fails: the certificate pool is looked up
    first, then the broker is dialled. *)
Definition setup_error (pool : error) (dial : nat + string) : error :=
  match pool with
  | Some e => Some e
  | None => match dial with inr e => Some e | inl _ => None end
  end.

Definition is_dial (c : LibCall) : bool :=
  match c with
  | CallNewConsumer _ _ _ _ | CallNewAsyncProducer _ _ => true
  | _ => false
  end.

(** The library calls made since [w]. *)
Definition calls_since (w w' : World) : list LibCall :=
  drop (List.length (calls w)) (calls w').

(** Every channel the connector holds is in the store. *)
Definition in_store (h : ChanStore) (c : ChanRef) : Prop :=
  match c with
  | None => True
  | Some i => i < List.length h
  end.

Definition wf (w : World) : Prop :=
  in_store (chans w) (consumerChannel (conn w)) /\
  in_store (chans w) (producerChannel (conn w)) /\
  in_store (chans w) (manualErrSignal (conn w)).

(** Whether the prologue of a [Start*] method makes the signal channel. *)
Definition makes_signal (c : Connector) : bool :=
  negb (manualErrFlag c) && isNil (manualErrSignal c).

(** The store after the prologue. *)
Definition store_after_prologue (w : World) : ChanStore :=
  chans w ++ (if makes_signal (conn w) then [mkChan 0 false] else []).

Definition signal_after_prologue (w : World) : ChanRef :=
  if makes_signal (conn w) then Some (List.length (chans w))
  else manualErrSignal (conn w).

Definition is_warning (line : string) : bool := String.prefix "WARNING:" line.

(** The lines logged since [w]. *)
Definition lines_since (w w' : World) : list string :=
  drop (List.length (logged w)) (logged w').

(** The call returns and touches nothing but the log. *)
Definition is_noop (m : M World unit) (w : World) : Prop :=
  exists w',
    m w = Done tt w' /\
    conn w' = conn w /\ chans w' = chans w /\
    spawned w' = spawned w /\ calls w' = calls w /\
    producersClosed w' = producersClosed w.

(** The call returns, leaves the connector as it was and logs a warning. *)
Definition is_noop_with_warning (m : M World unit) (w : World) : Prop :=
  exists w',
    m w = Done tt w' /\
    conn w' = conn w /\
    existsb is_warning (lines_since w w') = true.

(** The channel length a calling sequence leaves configured, starting
    from [len]. *)
Definition configured_length (len : N) (ops : list Op) : N :=
  foldl (fun acc op =>
           match op with
           | OpSetChannelLength l => l
           | _ => acc
           end) len ops.

(** * Sample runs

    Concrete calling sequences and claims, on which the theorems below are
    instantiated. *)

(** The world a calling sequence on a new connector ends in (the new one
    again if it panics). *)
Definition world_after (maxChanLen : N) (ops : list Op) : World :=
  match run maxChanLen ops zeroWorld with
  | Done _ w => w
  | Panic _ => zeroWorld
  end.

Definition session_ops : list Op :=
  [OpSetAuthAnon;
   OpStartConsumer "broker:9093" ["flows"] "group" (-1) None (inl 1);
   OpStartProducer "broker:9093" "flows-out" (inl 2)].

Definition session_world : World :=
  Eval vm_compute in world_after 1024 session_ops.

Definition closed_world : World :=
  Eval vm_compute in world_after 1024 (session_ops ++ [OpClose]).

Definition restarted_world : World :=
  Eval vm_compute in
    world_after 1024
      (session_ops ++
       [OpClose;
        OpStartConsumer "broker:9093" ["flows"] "group" (-1) None (inl 3)]).

Definition manual_ops : list Op :=
  [OpSetAuthAnon; OpStartProducer "broker:9093" "flows-out" (inl 1)].

Definition manual_world : World :=
  Eval vm_compute in world_after 1024 [OpEnableManualErrorHandling].

Definition manual_session_world : World :=
  Eval vm_compute in world_after 1024 (OpEnableManualErrorHandling :: manual_ops).

Definition manual_started_world : World :=
  Eval vm_compute in
    world_after 1024
      (OpEnableManualErrorHandling :: manual_ops ++
       [OpStartConsumer "broker:9093" ["flows"] "group" (-1) None (inl 2)]).




(** A stand-in for the decoder, to run the loop on: a payload is taken when
    it starts with the byte 08, and what follows is the message. *)
Definition sample_Unmarshal (b : list Byte.byte) : list Byte.byte + string :=
  match b with
  | x08 :: rest => inl rest
  | _ => inr "proto: cannot parse invalid wire-format data"
  end.

(** A session that keeps the offset of one partition. *)
#[local] Instance offset_session : ConsumerGroupSession Z :=
  {| MarkMessage s m _ := Z.max s (Offset m + 1) |}.

#[local] Instance offset_store : OffsetStore Z :=
  {| stored_offset s := s;
     MarkMessage_offset s m md := eq_refl |}.

Definition sample_handler : HandlerWorld :=
  Eval vm_compute in
    match Setup (mkHandlerWorld (mkConsumer (Some 0) None None)
                   [mkChan 0 false] []) with
    | Done _ hw => hw
    | Panic _ => mkHandlerWorld (mkConsumer None None None) [] []
    end.

Definition good1 : ConsumerMessage := mkConsumerMessage "flows" 0 40 [x08; x01].
Definition broken2 : ConsumerMessage := mkConsumerMessage "flows" 0 41 [xff].
Definition good3 : ConsumerMessage := mkConsumerMessage "flows" 0 42 [x08; x03].

(** * More vocabulary *)

(** The calls [Close] makes into the library: one for each session the
    connector holds, the consumer first. *)
Definition close_calls (c : Connector) : list LibCall :=
  match consumer c with Some h => [CallConsumerClose h] | None => [] end ++
  match producer c with Some h => [CallProducerClose h] | None => [] end.

(** Whether the producer the connector holds has been closed. *)
Definition producer_closed (w : World) : bool :=
  match producer (conn w) with
  | Some h => bool_decide (h ∈ producersClosed w)
  | None => false
  end.

(** The channel [c], when there is one, is in the store with this closed
    flag. *)
Definition closed_is (h : ChanStore) (c : ChanRef) (b : bool) : Prop :=
  match c with
  | None => True
  | Some i => chan_closed <$> h !! i = Some b
  end.

(** What holds of the channels of a connector: the two typed channels are
    open and the signal channel is closed exactly when the manual flag is
    set; the three are different channels. *)
Definition chan_inv (h : ChanStore) (cc pc sg : ChanRef) (fl : bool) : Prop :=
  closed_is h cc false /\ closed_is h pc false /\ closed_is h sg fl /\
  (forall i, cc = Some i -> pc <> Some i) /\
  (forall i, sg = Some i -> cc <> Some i /\ pc <> Some i).

Definition world_inv (w : World) : Prop :=
  chan_inv (chans w) (consumerChannel (conn w)) (producerChannel (conn w))
    (manualErrSignal (conn w)) (manualErrFlag (conn w)).

(** A channel of [h] is still in [h'], with its capacity, and closed if it
    was. *)
Definition store_extends (h h' : ChanStore) : Prop :=
  forall i c, h !! i = Some c ->
    exists c', h' !! i = Some c' /\ chan_cap c' = chan_cap c /\
               (chan_closed c = true -> chan_closed c' = true).

Definition is_start (op : Op) : bool :=
  match op with
  | OpStartConsumer _ _ _ _ _ _ | OpStartProducer _ _ _ => true
  | _ => false
  end.

(** The capacity of the channel [c] in the world [w]. *)
Definition channel_capacity (w : World) (c : ChanRef) : option N :=
  match c with
  | Some i => chan_cap <$> chans w !! i
  | None => None
  end.

Definition is_bridge (g : Goroutine) : bool :=
  match g with
  | GoDecodeMessages _ _ | GoEncodeMessages _ _ _ => true
  | _ => false
  end.

Definition loggers (w : World) : nat :=
  List.length (filter (fun g => is_logger g = true) (spawned w)).

Definition bridges (w : World) : nat :=
  List.length (filter (fun g => is_bridge g = true) (spawned w)).

(** The channels handed to the decoders (encoders) started so far. *)
Definition decode_outs (sp : list Goroutine) : list ChanRef :=
  omap (fun g => match g with GoDecodeMessages _ out => Some out | _ => None end) sp.

Definition encode_inps (sp : list Goroutine) : list ChanRef :=
  omap (fun g => match g with GoEncodeMessages _ _ inp => Some inp | _ => None end) sp.

(** The last of them, nil when there is none. *)
Definition last_chan (l : list ChanRef) : ChanRef := default None (last l).

(** The call with its password taken out: [SetAuth] with the empty
    password, and [SetAuthFromEnv] as the [SetAuth] of the user name it
    reads. *)
Definition redact (op : Op) : Op :=
  match op with
  | OpSetAuth u _ => OpSetAuth u ""
  | OpSetAuthFromEnv env => OpSetAuth (Getenv env "KAFKA_SASL_USER") ""
  | _ => op
  end.

(** Two worlds that differ at most in the password and in the calls
    recorded (the dial carries the password). *)
Definition same_but_password (w1 w2 : World) : Prop :=
  set_pass "" (conn w1) = set_pass "" (conn w2) /\
  chans w1 = chans w2 /\ spawned w1 = spawned w2 /\ logged w1 = logged w2 /\
  producersClosed w1 = producersClosed w2.

(** The log of an outcome, [None] for a panic. *)
Definition log_of {A} (o : Outcome World A) : option (list string) :=
  match o with
  | Done _ w => Some (logged w)
  | Panic _ => None
  end.

(** Whether [c] is a channel of the store that is open. *)
Definition is_open_chan (h : ChanStore) (c : ChanRef) : bool :=
  match c with
  | None => false
  | Some i =>
      match h !! i with
      | Some ch => negb (chan_closed ch)
      | None => false
      end
  end.

(** The messages a claim run left marked but neither sent nor logged: the
    one a send that did not return was for. *)
Definition in_flight (s : ClaimStatus) : nat :=
  match s with
  | Returned _ => 0
  | BlockedOnSend | PanickedOnSend => 1
  end.

(** [strings.Join] with a one-character separator. *)
Fixpoint Join (l : list string) (sep : Ascii.ascii) : string :=
  match l with
  | [] => EmptyString
  | [w] => w
  | w :: ws => w +:+ String sep (Join ws sep)
  end.

(** How often [sep] occurs in [s]. *)
Fixpoint occurrences (sep : Ascii.ascii) (s : string) : nat :=
  match s with
  | EmptyString => 0
  | String c rest =>
      (if Ascii.eqb c sep then 1 else 0) + occurrences sep rest
  end.

(** The credentials a calling sequence leaves in the connector, starting
    from [up]: those of the last call that sets them. *)
Definition configured_auth (up : string * string) (ops : list Op)
  : string * string :=
  foldl (fun acc op =>
           match op with
           | OpSetAuth u p => (u, p)
           | OpSetAuthFromEnv env =>
               (Getenv env "KAFKA_SASL_USER", Getenv env "KAFKA_SASL_PASS")
           | OpSetAuthAnon => ("anon", "anon")
           | _ => acc
           end) up ops.


(** * Properties of the connector *)

Ltac unfold_monad :=
  unfold discard, libProducerClose, libProducerOpened, bind, ret, getConn,
    modConn, go, logLine, call, onChans, nilDeref in *.

Ltac unfold_ops :=
  unfold SetAuth, SetAuthFromEnv, SetAuthAnon, EnableManualErrorHandling,
    SetChannelLength, StartConsumer, StartProducer, ensureSignal, Close,
    CloseConsumer, CloseProducer, ConsumerChannel, ProducerChannel,
    ConsumerErrors, ConsumerNotifications, ProducerErrors in *;
  unfold_monad.

(** An unbuffered channel can always be made. *)
Lemma make_chan_zero limit (h : ChanStore) :
  make_chan limit 0 h = Done (List.length h) (h ++ [mkChan 0 false]).
Proof.
  unfold make_chan. by destruct (N.ltb_spec limit 0) as [Hlt|Hge]; [lia|].
Qed.

Lemma run_app maxChanLen (ops1 ops2 : list Op) (w : World) :
  run maxChanLen (ops1 ++ ops2) w =
  match run maxChanLen ops1 w with
  | Done _ w1 => run maxChanLen ops2 w1
  | Panic msg => Panic msg
  end.
Proof.
  revert w. induction ops1 as [|op ops1 IH]; intros w; simpl; [done|].
  unfold bind. destruct (exec maxChanLen op w) as [[] w1|msg]; [apply IH|done].
Qed.

Lemma run_cons_inv maxChanLen op ops w w' :
  run maxChanLen (op :: ops) w = Done tt w' ->
  exists w1, exec maxChanLen op w = Done tt w1 /\ run maxChanLen ops w1 = Done tt w'.
Proof.
  simpl. unfold bind. destruct (exec maxChanLen op w) as [[] w1|msg]; [|done].
  intros Hr. by exists w1.
Qed.

(** A property of worlds kept by every method call is kept by a calling
    sequence. *)
Lemma run_preserves maxChanLen (P : World -> Prop) :
  (forall op w w', exec maxChanLen op w = Done tt w' -> P w -> P w') ->
  forall ops w w', run maxChanLen ops w = Done tt w' -> P w -> P w'.
Proof.
  intros Hstep ops. induction ops as [|op ops IH]; intros w w' Hr HP.
  - simpl in Hr. unfold ret in Hr. by inversion Hr; subst.
  - apply run_cons_inv in Hr as (w1 & He & Hr). eauto.
Qed.

(** The same for a relation between the world before and the world after. *)
Lemma run_relates maxChanLen (R : World -> World -> Prop) :
  (forall w, R w w) ->
  (forall w1 w2 w3, R w1 w2 -> R w2 w3 -> R w1 w3) ->
  (forall op w w', exec maxChanLen op w = Done tt w' -> R w w') ->
  forall ops w w', run maxChanLen ops w = Done tt w' -> R w w'.
Proof.
  intros Hrefl Htrans Hstep ops. induction ops as [|op ops IH]; intros w w' Hr.
  - simpl in Hr. unfold ret in Hr. inversion Hr; subst. apply Hrefl.
  - apply run_cons_inv in Hr as (w1 & He & Hr). eauto.
Qed.

(** ** Credentials from the environment *)

(** [SetAuthFromEnv] never panics; it stores both values it read and then
    decides on them. *)
Lemma SetAuthFromEnv_eq env w :
  SetAuthFromEnv env w =
  Done (if String.eqb (Getenv env "KAFKA_SASL_USER") ""
           || String.eqb (Getenv env "KAFKA_SASL_PASS") ""
        then Some authError else None)
       (withAuth (Getenv env "KAFKA_SASL_USER") (Getenv env "KAFKA_SASL_PASS") w).
Proof.
  unfold_ops. simpl.
  by destruct (String.eqb (Getenv env "KAFKA_SASL_USER") ""
               || String.eqb (Getenv env "KAFKA_SASL_PASS") "").
Qed.

(** C4: [SetAuthFromEnv] returns an error exactly when one of
    KAFKA_SASL_USER and KAFKA_SASL_PASS is empty (Getenv gives the empty
    string for a variable that is not set); when both are present it returns
    nil and the connector holds the two values. *)
Theorem SetAuthFromEnv_error_iff (env : gmap string string) (w : World) :
  exists e w',
    SetAuthFromEnv env w = Done e w' /\
    (e <> None <->
       Getenv env "KAFKA_SASL_USER" = "" \/ Getenv env "KAFKA_SASL_PASS" = "") /\
    (e = None <->
       Getenv env "KAFKA_SASL_USER" <> "" /\ Getenv env "KAFKA_SASL_PASS" <> "") /\
    (e = None ->
       user (conn w') = Getenv env "KAFKA_SASL_USER" /\
       pass (conn w') = Getenv env "KAFKA_SASL_PASS").
Proof.
  eexists _, _. split; [apply SetAuthFromEnv_eq|].
  destruct (String.eqb_spec (Getenv env "KAFKA_SASL_USER") "") as [Hu|Hu];
    destruct (String.eqb_spec (Getenv env "KAFKA_SASL_PASS") "") as [Hp|Hp];
    simpl; repeat split; try done; try tauto; intros; try (intros [? | ?]; done).
  all: naive_solver.
Qed.

(** C10: the two fields are written before the check, so after a failed
    call they hold the values read from the environment, whatever they held
    before; credentials that differ from those values are lost. *)
Theorem SetAuthFromEnv_failure_overwrites (env : gmap string string)
    (w w' : World) (msg : string) :
  SetAuthFromEnv env w = Done (Some msg) w' ->
  user (conn w') = Getenv env "KAFKA_SASL_USER" /\
  pass (conn w') = Getenv env "KAFKA_SASL_PASS" /\
  (user (conn w') = "" \/ pass (conn w') = "") /\
  ((user (conn w), pass (conn w))
     <> (Getenv env "KAFKA_SASL_USER", Getenv env "KAFKA_SASL_PASS") ->
   conn w' <> conn w).
Proof.
  rewrite SetAuthFromEnv_eq. intros Heq.
  inversion Heq as [[He Hw]]. simpl.
  split; [done|]. split; [done|]. split.
  - destruct (String.eqb_spec (Getenv env "KAFKA_SASL_USER") "") as [Hu|Hu];
      [by left|].
    destruct (String.eqb_spec (Getenv env "KAFKA_SASL_PASS") "") as [Hp|Hp];
      [by right|done].
  - intros Hne Hc. apply Hne. rewrite <- Hc. done.
Qed.

(** After [SetAuth "alice" "secret"], a call with an environment that has
    only the user name fails and leaves the connector without a password. *)
Lemma SetAuthFromEnv_failure_overwrites_witness :
  let env : gmap string string := {["KAFKA_SASL_USER" := "bob"]} in
  let w := withAuth "alice" "secret" zeroWorld in
  let w' := withAuth "bob" "" zeroWorld in
  user (conn w') = "bob" /\ pass (conn w') = "" /\ conn w' <> conn w.
Proof.
  intros env w w'.
  destruct (SetAuthFromEnv_failure_overwrites env w w' authError) as (Hu & Hp & _ & Hne).
  - vm_compute. reflexivity.
  - split; [exact Hu|]. split; [exact Hp|]. apply Hne. vm_compute. discriminate.
Defined.

(** ** Failure of the connection setup *)

Lemma drop_length_app {A} (l k : list A) : drop (List.length l) (l ++ k) = k.
Proof. by rewrite drop_app_length. Qed.

(** C3: when the setup of the connection fails (the dial to the broker,
    which carries the authentication, or the certificate pool before it),
    [StartConsumer] returns that error to its caller, has dialled at most
    once, and has started no goroutine: neither the decoder nor the logger. *)
Theorem StartConsumer_setup_failure maxChanLen (broker : string)
    (topics : list string) (consumergroup : string) (offset : Z)
    (pool : error) (dial : nat + string) (w : World) (e : string) :
  setup_error pool dial = Some e ->
  exists w',
    StartConsumer maxChanLen broker topics consumergroup offset pool dial w
      = Done (Some e) w' /\
    spawned w' = spawned w /\
    List.length (filter (fun c => is_dial c = true) (calls_since w w')) <= 1 /\
    (pool = None -> consumer (conn w') = None).
Proof.
  intros He. unfold calls_since. unfold_ops. destruct w as [c hs sp lg cl pcl].
  destruct c as [u p co pr cc pc fl sg len]. simpl.
  destruct fl, sg as [s|], pool as [pe|], dial as [h|de]; simpl in *;
    rewrite ?make_chan_zero; simpl;
    try discriminate; inversion He; subst;
    eexists; (split; [reflexivity|]); simpl;
    repeat split; try done;
    rewrite <- ?app_assoc, drop_length_app; simpl; lia.
Qed.

(** A dial refused by the broker, on a fresh connector. *)
Lemma StartConsumer_setup_failure_witness :
  exists w',
    StartConsumer 1024 "broker:9093" ["flows"] "group" (-1) None
      (inr "kafka: invalid credentials") zeroWorld
      = Done (Some "kafka: invalid credentials") w' /\
    spawned w' = [] /\
    List.length (filter (fun c => is_dial c = true) (calls_since zeroWorld w')) <= 1 /\
    (@None string = None -> consumer (conn w') = None).
Proof.
  apply (StartConsumer_setup_failure 1024 "broker:9093" ["flows"] "group" (-1)
           None (inr "kafka: invalid credentials") zeroWorld).
  reflexivity.
Defined.

(** ** What a call changes *)

(** Case analysis of one method call that returned. *)
Ltac exec_cases H :=
  unfold_ops; unfold make_chan, close_chan in H; simpl in H;
  repeat (case_match; simpl in H; try discriminate);
  simplify_eq; simpl in *.

(** Case analysis of a [Start*] call, once the flag, the signal and the
    answers of the library are known. *)
Ltac start_cases H :=
  unfold_ops; unfold make_chan in H; simpl in H;
  repeat match type of H with
         | context [if ?b then _ else _] => destruct b eqn:?; simpl in H
         end;
  simplify_eq; simpl in *.

Lemma in_store_mono (h h' : ChanStore) (c : ChanRef) :
  List.length h <= List.length h' -> in_store h c -> in_store h' c.
Proof. destruct c as [i|]; simpl; [lia|done]. Qed.

Lemma exec_store_grows maxChanLen op w w' :
  exec maxChanLen op w = Done tt w' ->
  List.length (chans w) <= List.length (chans w').
Proof.
  intros H. destruct w as [[u p co pr cc pc fl sg len] hs sp lg cl pcl].
  destruct op; simpl in H; exec_cases H;
    rewrite ?length_app, ?length_insert; simpl; lia.
Qed.

Lemma exec_wf maxChanLen op w w' :
  exec maxChanLen op w = Done tt w' -> wf w -> wf w'.
Proof.
  intros H. destruct w as [[u p co pr cc pc fl sg len] hs sp lg cl pcl].
  unfold wf.
  destruct op; simpl in H; exec_cases H; intros (Hc & Hp & Hs);
    repeat split; simpl;
    try (eapply in_store_mono; [|eassumption]);
    rewrite ?length_app, ?length_insert; simpl; try lia; try done.
Qed.

(** The flag of manual error handling is never cleared. *)
Lemma exec_flag_stays maxChanLen op w w' :
  exec maxChanLen op w = Done tt w' ->
  manualErrFlag (conn w) = true -> manualErrFlag (conn w') = true.
Proof.
  intros H. destruct w as [[u p co pr cc pc fl sg len] hs sp lg cl pcl].
  destruct op; simpl in H; exec_cases H; done.
Qed.

(** With the flag set, no call starts a logger. *)
Lemma exec_no_logger maxChanLen op w w' :
  exec maxChanLen op w = Done tt w' ->
  manualErrFlag (conn w) = true ->
  filter (fun g => is_logger g = true) (spawned w')
  = filter (fun g => is_logger g = true) (spawned w).
Proof.
  intros H. destruct w as [[u p co pr cc pc fl sg len] hs sp lg cl pcl].
  destruct op; simpl in H; exec_cases H; intros ->; simpl in *;
    try done; try discriminate;
    by rewrite filter_app, filter_cons_False, filter_nil, app_nil_r.
Qed.

(** ** A successful start *)

(** [StartConsumer] returns nil only when the pool and the dial succeeded
    and [make] accepted the channel length; the world is then this one. *)
Lemma StartConsumer_success maxChanLen broker topics consumergroup offset
    pool dial (w w' : World) :
  StartConsumer maxChanLen broker topics consumergroup offset pool dial w
    = Done None w' ->
  exists h,
    dial = inl h /\ pool = None /\
    (channelLength (conn w) <= maxChanLen)%N /\
    let ch := List.length (store_after_prologue w) in
    chans w' = store_after_prologue w ++ [mkChan (channelLength (conn w)) false] /\
    conn w' = set_consumerChannel (Some ch) (set_consumer (Some h)
                (set_manualErrSignal (signal_after_prologue w) (conn w))) /\
    spawned w' = spawned w ++ GoDecodeMessages (Some h) (Some ch)
                   :: (if manualErrFlag (conn w) then [] else [GoConsumerLogger]).
Proof.
  intros H. destruct w as [[u p co pr cc pc fl sg len] hs sp lg cl pcl].
  unfold store_after_prologue, signal_after_prologue, makes_signal.
  destruct fl, sg as [s|], pool as [pe|], dial as [h|de]; start_cases H;
    eexists; repeat split; try done;
    rewrite ?app_nil_r, <- ?app_assoc; simpl; try done;
    match goal with
    | Hlt : (_ <? _)%N = false |- _ => apply N.ltb_ge in Hlt; lia
    end.
Qed.

Lemma StartProducer_success maxChanLen broker topic dial (w w' : World) :
  StartProducer maxChanLen broker topic dial w = Done None w' ->
  exists h,
    dial = inl h /\
    (channelLength (conn w) <= maxChanLen)%N /\
    let ch := List.length (store_after_prologue w) in
    chans w' = store_after_prologue w ++ [mkChan (channelLength (conn w)) false] /\
    conn w' = set_producerChannel (Some ch) (set_producer (Some h)
                (set_manualErrSignal (signal_after_prologue w) (conn w))) /\
    spawned w' = spawned w ++ GoEncodeMessages (Some h) topic (Some ch)
                   :: (if manualErrFlag (conn w) then [] else [GoProducerLogger]).
Proof.
  intros H. destruct w as [[u p co pr cc pc fl sg len] hs sp lg cl pcl].
  unfold store_after_prologue, signal_after_prologue, makes_signal.
  destruct fl, sg as [s|], dial as [h|de]; start_cases H;
    eexists; repeat split; try done;
    rewrite ?app_nil_r, <- ?app_assoc; simpl; try done;
    match goal with
    | Hlt : (_ <? _)%N = false |- _ => apply N.ltb_ge in Hlt; lia
    end.
Qed.

(** A start whose library calls succeed returns nil, in any state of the
    connector, as long as [make] accepts the channel length. *)
Lemma StartConsumer_returns_nil maxChanLen broker topics consumergroup offset
    (h : nat) (w : World) :
  (channelLength (conn w) <= maxChanLen)%N ->
  exists w',
    StartConsumer maxChanLen broker topics consumergroup offset None (inl h) w
      = Done None w'.
Proof.
  intros Hle. destruct w as [[u p co pr cc pc fl sg len] hs sp lg cl pcl].
  simpl in Hle. apply N.ltb_ge in Hle.
  unfold_ops. simpl.
  destruct fl, sg as [s|]; simpl; rewrite ?make_chan_zero; simpl;
    unfold make_chan; rewrite Hle; simpl; by eexists.
Qed.

Lemma StartProducer_returns_nil maxChanLen broker topic (h : nat) (w : World) :
  (channelLength (conn w) <= maxChanLen)%N ->
  exists w', StartProducer maxChanLen broker topic (inl h) w = Done None w'.
Proof.
  intros Hle. destruct w as [[u p co pr cc pc fl sg len] hs sp lg cl pcl].
  simpl in Hle. apply N.ltb_ge in Hle.
  unfold_ops. simpl.
  destruct fl, sg as [s|]; simpl; rewrite ?make_chan_zero; simpl;
    unfold make_chan; rewrite Hle; simpl; by eexists.
Qed.

(** ** Manual error handling *)

Lemma EnableManualErrorHandling_sets_flag (w w' : World) :
  EnableManualErrorHandling w = Done tt w' ->
  manualErrFlag (conn w') = true /\ spawned w' = spawned w.
Proof.
  intros H. destruct w as [[u p co pr cc pc fl sg len] hs sp lg cl pcl].
  exec_cases H; done.
Qed.

Lemma run_flag_stays maxChanLen ops w w' :
  run maxChanLen ops w = Done tt w' ->
  manualErrFlag (conn w) = true ->
  manualErrFlag (conn w') = true /\
  filter (fun g => is_logger g = true) (spawned w')
  = filter (fun g => is_logger g = true) (spawned w).
Proof.
  revert w. induction ops as [|op ops IH]; intros w Hr Hf.
  - simpl in Hr. unfold ret in Hr. by inversion Hr; subst.
  - apply run_cons_inv in Hr as (w1 & He & Hr).
    destruct (IH w1 Hr) as [Hf' Hl]; [by eapply exec_flag_stays|].
    split; [done|]. rewrite Hl. by eapply exec_no_logger.
Qed.

(** C2: once [EnableManualErrorHandling] has been called, whatever is
    called afterwards, no logger goroutine is started: the loggers among the
    spawned goroutines are those from before the call (none, when no
    [Start*] method had been called), and every later [StartConsumer] or
    [StartProducer] that returns nil starts its bridge goroutine and nothing
    else. *)
Theorem manual_mode_starts_no_logger maxChanLen (w0 w1 w2 : World)
    (ops : list Op) :
  EnableManualErrorHandling w0 = Done tt w1 ->
  run maxChanLen ops w1 = Done tt w2 ->
  filter (fun g => is_logger g = true) (spawned w2)
    = filter (fun g => is_logger g = true) (spawned w0) /\
  (forall broker topics consumergroup offset pool dial w3,
      StartConsumer maxChanLen broker topics consumergroup offset pool dial w2
        = Done None w3 ->
      exists h ch,
        spawned w3 = spawned w2 ++ [GoDecodeMessages (Some h) (Some ch)] /\
        consumer (conn w3) = Some h /\ consumerChannel (conn w3) = Some ch) /\
  (forall broker topic dial w3,
      StartProducer maxChanLen broker topic dial w2 = Done None w3 ->
      exists h ch,
        spawned w3 = spawned w2 ++ [GoEncodeMessages (Some h) topic (Some ch)] /\
        producer (conn w3) = Some h /\ producerChannel (conn w3) = Some ch).
Proof.
  intros He Hr.
  apply EnableManualErrorHandling_sets_flag in He as [Hf Hs].
  destruct (run_flag_stays _ _ _ _ Hr Hf) as [Hf2 Hl].
  split; [by rewrite Hl, Hs|]. split.
  - intros broker topics consumergroup offset pool dial w3 H3.
    apply StartConsumer_success in H3 as (h & _ & _ & _ & _ & Hc & Hsp).
    rewrite Hf2 in Hsp. exists h, (List.length (store_after_prologue w2)).
    by rewrite Hsp, Hc.
  - intros broker topic dial w3 H3.
    apply StartProducer_success in H3 as (h & _ & _ & _ & Hc & Hsp).
    rewrite Hf2 in Hsp. exists h, (List.length (store_after_prologue w2)).
    by rewrite Hsp, Hc.
Qed.

(** On a new connector: manual error handling, then credentials, a
    producer and a consumer.  Two bridges run and no logger. *)
Lemma manual_mode_starts_no_logger_witness :
  filter (fun g => is_logger g = true) (spawned manual_session_world) = [] /\
  exists h ch,
    spawned manual_started_world
      = spawned manual_session_world ++ [GoDecodeMessages (Some h) (Some ch)] /\
    consumer (conn manual_started_world) = Some h /\
    consumerChannel (conn manual_started_world) = Some ch.
Proof.
  destruct (manual_mode_starts_no_logger 1024 zeroWorld manual_world
              manual_session_world manual_ops) as (Hl & Hc & _).
  - vm_compute. reflexivity.
  - vm_compute. reflexivity.
  - split; [exact Hl|].
    apply (Hc "broker:9093" ["flows"] "group" (-1)%Z None (inl 2)).
    vm_compute. reflexivity.
Defined.

(** ** Closing *)

(** C5, as amended: on a connector without a consumer (producer),
    [CloseConsumer] ([CloseProducer]) returns and changes nothing but the
    log, where it writes a warning, also when called again; on a connector
    with neither session, [Close] returns, changes nothing at all and logs
    nothing, also when called twice in a row. *)
Theorem Close_uninitialized (w : World) :
  (consumer (conn w) = None ->
     is_noop CloseConsumer w /\ is_noop_with_warning CloseConsumer w /\
     is_noop (CloseConsumer ;;; CloseConsumer) w) /\
  (producer (conn w) = None ->
     is_noop CloseProducer w /\ is_noop_with_warning CloseProducer w /\
     is_noop (CloseProducer ;;; CloseProducer) w) /\
  (consumer (conn w) = None -> producer (conn w) = None ->
     Close w = Done tt w /\ (Close ;;; Close) w = Done tt w).
Proof.
  destruct w as [[u p co pr cc pc fl sg len] hs sp lg cl pcl].
  unfold is_noop, is_noop_with_warning, lines_since.
  repeat split; simpl in *; subst; unfold_ops; simpl;
    try (eexists; split; [reflexivity|]; simpl; repeat split; try done;
         by rewrite drop_length_app);
    try reflexivity.
Qed.

Lemma Close_uninitialized_witness :
  is_noop CloseConsumer zeroWorld /\
  is_noop_with_warning CloseProducer zeroWorld /\
  (Close ;;; Close) zeroWorld = Done tt zeroWorld.
Proof.
  destruct (Close_uninitialized zeroWorld) as (Hc & Hp & Hb).
  destruct (Hc eq_refl) as (Hc1 & _). destruct (Hp eq_refl) as (_ & Hp2 & _).
  destruct (Hb eq_refl eq_refl) as (_ & Hb2).
  exact (conj Hc1 (conj Hp2 Hb2)).
Defined.

(** C5 as it was stated fails twice.  On a new connector [Close] returns
    without a line in the log.  And after a consumer and a producer were
    started, the second of two [Close] in a row does not return: the first
    has closed the producer and left it in the connector, so the second
    closes it again. *)
Lemma Close_claim_fails :
  ~ is_noop_with_warning Close zeroWorld /\
  (Close ;;; Close) session_world = Panic "send on closed channel".
Proof.
  split; [|reflexivity].
  intros (w' & Hc & _ & Hw). vm_compute in Hc. inversion Hc; subst.
  vm_compute in Hw. discriminate.
Qed.

(** ** Channels of a session *)

Lemma run_wf maxChanLen ops w w' :
  run maxChanLen ops w = Done tt w' -> wf w -> wf w'.
Proof. apply (run_preserves maxChanLen wf), exec_wf. Qed.

Lemma run_store_grows maxChanLen ops w w' :
  run maxChanLen ops w = Done tt w' ->
  List.length (chans w) <= List.length (chans w').
Proof.
  apply (run_relates maxChanLen
           (fun w w' => List.length (chans w) <= List.length (chans w'))).
  - intros; lia.
  - intros; lia.
  - apply exec_store_grows.
Qed.

Lemma wf_zeroWorld : wf zeroWorld.
Proof. by repeat split. Qed.

Lemma store_after_prologue_length (w : World) :
  List.length (chans w) <= List.length (store_after_prologue w).
Proof. unfold store_after_prologue. rewrite length_app. lia. Qed.

(** A channel made after [w1] is none of the channels [w1] holds. *)
Lemma later_channel_is_new (w1 : World) (ch : nat) :
  wf w1 -> List.length (chans w1) <= ch ->
  consumerChannel (conn w1) <> Some ch /\ producerChannel (conn w1) <> Some ch.
Proof.
  intros (Hc & Hp & _) Hle.
  split; intros Heq; [rewrite Heq in Hc|rewrite Heq in Hp]; simpl in *; lia.
Qed.

(** C7: a [StartConsumer] ([StartProducer]) that returns nil stores a
    channel that did not exist before the call and is open after it; it is
    none of the channels the connector held at any earlier point [w1] of the
    calling sequence, and the call leaves the other session and its channel
    alone.  In any state reached, e.g. after a [Close], a start whose
    library calls succeed returns nil (for a channel length [make] accepts). *)
Theorem start_makes_fresh_channel maxChanLen (ops1 ops2 : list Op)
    (w1 w2 : World) :
  run maxChanLen ops1 zeroWorld = Done tt w1 ->
  run maxChanLen ops2 w1 = Done tt w2 ->
  (forall broker topics consumergroup offset pool dial w3,
      StartConsumer maxChanLen broker topics consumergroup offset pool dial w2
        = Done None w3 ->
      exists ch,
        consumerChannel (conn w3) = Some ch /\
        chans w2 !! ch = None /\
        chan_closed <$> chans w3 !! ch = Some false /\
        consumerChannel (conn w1) <> Some ch /\
        producerChannel (conn w1) <> Some ch /\
        producer (conn w3) = producer (conn w2) /\
        producerChannel (conn w3) = producerChannel (conn w2)) /\
  (forall broker topic dial w3,
      StartProducer maxChanLen broker topic dial w2 = Done None w3 ->
      exists ch,
        producerChannel (conn w3) = Some ch /\
        chans w2 !! ch = None /\
        chan_closed <$> chans w3 !! ch = Some false /\
        consumerChannel (conn w1) <> Some ch /\
        producerChannel (conn w1) <> Some ch /\
        consumer (conn w3) = consumer (conn w2) /\
        consumerChannel (conn w3) = consumerChannel (conn w2)) /\
  ((channelLength (conn w2) <= maxChanLen)%N ->
   (forall broker topics consumergroup offset h, exists w3,
       StartConsumer maxChanLen broker topics consumergroup offset None (inl h) w2
         = Done None w3) /\
   (forall broker topic h, exists w3,
       StartProducer maxChanLen broker topic (inl h) w2 = Done None w3)).
Proof.
  intros H1 H2.
  pose proof (run_wf _ _ _ _ H1 wf_zeroWorld) as Hwf1.
  pose proof (run_store_grows _ _ _ _ H2) as Hgrow.
  pose proof (store_after_prologue_length w2) as Hpro.
  split; [|split].
  - intros broker topics consumergroup offset pool dial w3 H3.
    apply StartConsumer_success in H3 as (h & _ & _ & _ & Hch & Hc & _).
    exists (List.length (store_after_prologue w2)).
    destruct (later_channel_is_new w1 (List.length (store_after_prologue w2)))
      as [Hn1 Hn2]; [done|lia|].
    rewrite Hc, Hch. simpl. repeat split; try done.
    + apply lookup_ge_None. lia.
    + by rewrite list_lookup_middle.
  - intros broker topic dial w3 H3.
    apply StartProducer_success in H3 as (h & _ & _ & Hch & Hc & _).
    exists (List.length (store_after_prologue w2)).
    destruct (later_channel_is_new w1 (List.length (store_after_prologue w2)))
      as [Hn1 Hn2]; [done|lia|].
    rewrite Hc, Hch. simpl. repeat split; try done.
    + apply lookup_ge_None. lia.
    + by rewrite list_lookup_middle.
  - intros Hle. split; intros.
    + by apply StartConsumer_returns_nil.
    + by apply StartProducer_returns_nil.
Qed.

(** A consumer and a producer are started, both are closed, and the
    consumer is started again: its channel is a new one. *)
Lemma start_makes_fresh_channel_witness :
  consumerChannel (conn session_world) = Some 1 /\
  producerChannel (conn session_world) = Some 2 /\
  exists ch,
    consumerChannel (conn restarted_world) = Some ch /\
    chans closed_world !! ch = None /\
    chan_closed <$> chans restarted_world !! ch = Some false /\
    consumerChannel (conn session_world) <> Some ch /\
    producerChannel (conn session_world) <> Some ch /\
    producer (conn restarted_world) = producer (conn closed_world) /\
    producerChannel (conn restarted_world) = producerChannel (conn closed_world).
Proof.
  split; [reflexivity|]. split; [reflexivity|].
  destruct (start_makes_fresh_channel 1024 session_ops [OpClose]
              session_world closed_world) as (Hc & _ & _).
  - vm_compute. reflexivity.
  - vm_compute. reflexivity.
  - apply (Hc "broker:9093" ["flows"] "group" (-1)%Z None (inl 3)).
    vm_compute. reflexivity.
Defined.

(** ** The capacity of the channels *)

Lemma exec_channelLength maxChanLen op w w' :
  exec maxChanLen op w = Done tt w' ->
  channelLength (conn w') = configured_length (channelLength (conn w)) [op].
Proof.
  intros H. destruct w as [[u p co pr cc pc fl sg len] hs sp lg cl pcl].
  destruct op; simpl in H; exec_cases H; done.
Qed.

Lemma run_channelLength maxChanLen ops w w' :
  run maxChanLen ops w = Done tt w' ->
  channelLength (conn w') = configured_length (channelLength (conn w)) ops.
Proof.
  revert w. induction ops as [|op ops IH]; intros w Hr.
  - simpl in Hr. unfold ret in Hr. by inversion Hr; subst.
  - apply run_cons_inv in Hr as (w1 & He & Hr).
    rewrite (IH _ Hr), (exec_channelLength _ _ _ _ He). done.
Qed.



(** With no [SetChannelLength] at all the channel is unbuffered. *)
Example capacity_default :
  chan_cap <$> chans session_world !! 1 = Some 0%N.
Proof. reflexivity. Qed.

(** * Properties of the consume loop *)

Section ConsumeClaimProperties.

Context {FlowMessage : Type}.
Variable Unmarshal : list Byte.byte -> FlowMessage + string.
Context {S : Type} `{ConsumerGroupSession S}.

Lemma flows_open_send consumer h ch :
  flows_open consumer h ch -> send_status (flows consumer) h = SendOk ch.
Proof.
  intros [Hf Ho]. unfold send_status. rewrite Hf.
  destruct (h !! ch) as [c|]; simpl in Ho; [|done].
  inversion Ho as [Hc]. by rewrite Hc.
Qed.

(** With the flows channel open the loop runs to the end of the claim. *)
Lemma ConsumeClaim_open consumer h ch session messages :
  flows_open consumer h ch ->
  ConsumeClaim Unmarshal consumer h session messages =
  mkClaimRun (mark_all session messages)
             (messages ≫= turn_events Unmarshal ch) (Returned None).
Proof.
  intros Ho. apply flows_open_send in Ho.
  revert session. induction messages as [|m rest IH]; intros session; [done|].
  simpl. rewrite Ho, IH. unfold prepend, turn_events. simpl.
  by destruct (Unmarshal (Value m)).
Qed.

Lemma delivered_turns ch messages :
  omap (fun e => match e with EvSend _ f => Some f | _ => None end)
       (messages ≫= turn_events Unmarshal ch)
  = decodes Unmarshal messages.
Proof.
  induction messages as [|m rest IH]; [done|].
  unfold decodes in *. cbn [mbind list_bind app omap list_omap turn_events].
  rewrite IH. by destruct (Unmarshal (Value m)).
Qed.

Lemma marked_turns ch messages :
  omap (fun e => match e with EvMark m => Some m | _ => None end)
       (messages ≫= turn_events Unmarshal ch)
  = messages.
Proof.
  induction messages as [|m rest IH]; [done|].
  cbn [mbind list_bind app omap list_omap turn_events].
  rewrite IH. by destruct (Unmarshal (Value m)).
Qed.

Lemma decodes_app l k : decodes Unmarshal (l ++ k) = decodes Unmarshal l ++ decodes Unmarshal k.
Proof. unfold decodes. apply omap_app. Qed.

(** C1: a message whose payload does not decode is logged and skipped:
    the loop hands nothing to the flows channel for it, runs on to the end of
    the claim and returns nil, and every payload that decodes, before or
    after the broken one, is handed to the channel, in order. *)
Theorem broken_message_is_skipped (consumer : Consumer) (h : ChanStore)
    (ch : nat) (session : S) (before after : list ConsumerMessage)
    (broken : ConsumerMessage) (err : string) :
  flows_open consumer h ch ->
  Unmarshal (Value broken) = inr err ->
  let r := ConsumeClaim Unmarshal consumer h session (before ++ broken :: after) in
  status r = Returned None /\
  events r = (before ≫= turn_events Unmarshal ch)
             ++ [EvMark broken;
                 EvLog ("decodeMessages: Received broken message: " +:+ err)]
             ++ (after ≫= turn_events Unmarshal ch) /\
  delivered r = decodes Unmarshal before ++ decodes Unmarshal after /\
  (forall m flowMsg, m ∈ after -> Unmarshal (Value m) = inl flowMsg ->
                     flowMsg ∈ delivered r /\ EvSend ch flowMsg ∈ events r).
Proof.
  intros Ho Hbad r. subst r. rewrite (ConsumeClaim_open _ _ ch) by done.
  unfold delivered. simpl. rewrite delivered_turns.
  assert (Hturn : turn_events Unmarshal ch broken =
                  [EvMark broken;
                   EvLog ("decodeMessages: Received broken message: " +:+ err)])
    by (unfold turn_events; by rewrite Hbad).
  assert (Hdec : decodes Unmarshal (before ++ broken :: after)
                 = decodes Unmarshal before ++ decodes Unmarshal after).
  { rewrite decodes_app. f_equal. unfold decodes. simpl. by rewrite Hbad. }
  assert (Hev : (before ++ broken :: after) ≫= turn_events Unmarshal ch
                = (before ≫= turn_events Unmarshal ch)
                  ++ [EvMark broken;
                      EvLog ("decodeMessages: Received broken message: " +:+ err)]
                  ++ (after ≫= turn_events Unmarshal ch))
    by (by rewrite bind_app, bind_cons, Hturn).
  split; [done|]. split; [done|]. split; [done|].
  intros m flowMsg Hin Hm. split.
  - rewrite Hdec. apply elem_of_app. right. unfold decodes.
    apply list_elem_of_omap. exists m. by rewrite Hm.
  - rewrite Hev. apply elem_of_app. right. apply elem_of_app. right.
    apply list_elem_of_bind. exists m. split; [|done].
    unfold turn_events. rewrite Hm. set_solver.
Qed.

Context `{!OffsetStore S}.

Lemma mark_all_offset_mono (session : S) (messages : list ConsumerMessage) :
  (stored_offset session <= stored_offset (mark_all session messages))%Z.
Proof.
  revert session. induction messages as [|m rest IH]; intros session; [done|].
  simpl. etrans; [|apply IH]. rewrite MarkMessage_offset. lia.
Qed.

Lemma mark_all_past (session : S) (messages : list ConsumerMessage)
    (m : ConsumerMessage) :
  m ∈ messages -> (Offset m < stored_offset (mark_all session messages))%Z.
Proof.
  revert session. induction messages as [|m' rest IH]; intros session Hin.
  - by apply not_elem_of_nil in Hin.
  - apply elem_of_cons in Hin as [->|Hin]; simpl; [|by apply IH].
    pose proof (mark_all_offset_mono (MarkMessage session m' "") rest) as Hm.
    rewrite MarkMessage_offset in Hm. lia.
Qed.

(** C9: each turn of the loop marks its message first and only then
    decodes it, so the session has been told of every message of the claim,
    the broken ones too ([EvMark] comes right before the [EvLog] of the
    failure); the stored offset is then past every one of them, and none is
    delivered again to a group that resumes from it. *)
Theorem every_message_is_marked_first (consumer : Consumer) (h : ChanStore)
    (ch : nat) (session : S) (messages : list ConsumerMessage) :
  flows_open consumer h ch ->
  let r := ConsumeClaim Unmarshal consumer h session messages in
  events r = messages ≫= turn_events Unmarshal ch /\
  marked r = messages /\
  session_after r = mark_all session messages /\
  (forall m, m ∈ messages -> redelivered (session_after r) m = false) /\
  (forall before broken after err,
      messages = before ++ broken :: after ->
      Unmarshal (Value broken) = inr err ->
      events r = (before ≫= turn_events Unmarshal ch)
                 ++ [EvMark broken;
                     EvLog ("decodeMessages: Received broken message: " +:+ err)]
                 ++ (after ≫= turn_events Unmarshal ch) /\
      broken ∈ marked r /\
      redelivered (session_after r) broken = false).
Proof.
  intros Ho r. subst r. rewrite (ConsumeClaim_open _ _ ch) by done.
  unfold marked. simpl. rewrite marked_turns.
  assert (Hpast : forall m, m ∈ messages ->
                    redelivered (mark_all session messages) m = false).
  { intros m Hin. unfold redelivered. apply Z.leb_gt. by apply mark_all_past. }
  split; [done|]. split; [done|]. split; [done|]. split; [done|].
  intros before broken after err -> Hbad.
  assert (Hin : broken ∈ before ++ broken :: after) by set_solver.
  split; [|by auto].
  rewrite bind_app, bind_cons. unfold turn_events at 2. by rewrite Hbad.
Qed.

End ConsumeClaimProperties.

(** [Setup] leaves the flows channel open, when it returns ([ready] is a
    channel of the store, made by the caller). *)
Lemma Setup_opens_flows (hw hw' : HandlerWorld) (e : error) :
  in_store (hchans hw) (ready (cons hw)) ->
  Setup hw = Done e hw' ->
  exists ch, flows_open (cons hw') (hchans hw') ch.
Proof.
  destruct hw as [[r f c] h cl].
  unfold Setup, onHandlerChans, getCons, modCons, bind, ret. simpl.
  unfold close_chan. intros Hin.
  destruct r as [i|]; [|done]. simpl in Hin.
  destruct ((h ++ [mkChan 0 false]) !! i) as [c0|] eqn:Hi; [|done].
  destruct (chan_closed c0) eqn:Hc0; [done|].
  intros Heq. inversion Heq; subst. exists (List.length h).
  split; [done|]. simpl.
  rewrite list_lookup_insert_ne by lia. by rewrite list_lookup_middle.
Qed.

Lemma broken_message_is_skipped_witness :
  let r := ConsumeClaim sample_Unmarshal (cons sample_handler)
             (hchans sample_handler) 0%Z ([good1] ++ broken2 :: [good3]) in
  status r = Returned None /\
  delivered r = [[x01]; [x03]] /\
  log_lines r = ["decodeMessages: Received broken message: proto: cannot parse invalid wire-format data"].
Proof.
  destruct (broken_message_is_skipped sample_Unmarshal (cons sample_handler)
              (hchans sample_handler) 1 0%Z [good1] [good3] broken2
              "proto: cannot parse invalid wire-format data")
    as (Hs & Hev & Hd & _).
  - split; reflexivity.
  - reflexivity.
  - split; [exact Hs|]. split; [exact Hd|]. reflexivity.
Defined.

Lemma every_message_is_marked_first_witness :
  let r := ConsumeClaim sample_Unmarshal (cons sample_handler)
             (hchans sample_handler) 0%Z [good1; broken2; good3] in
  marked r = [good1; broken2; good3] /\
  session_after r = 43%Z /\
  redelivered (session_after r) broken2 = false.
Proof.
  destruct (every_message_is_marked_first sample_Unmarshal (cons sample_handler)
              (hchans sample_handler) 1 0%Z [good1; broken2; good3])
    as (_ & Hm & Hs & Hr & _).
  - split; reflexivity.
  - split; [exact Hm|]. split; [exact Hs|]. apply Hr. set_solver.
Defined.

(** * Panics *)

(** C6 fails on the code: a second [EnableManualErrorHandling] after a
    session was started in the default mode closes the signal channel again;
    a channel length above what [make] accepts makes a [Start*] method panic;
    a second [Setup] closes [ready] again; the three accessors of the
    library's channels dereference a session that was never started, and
    [Close] of a consumer calls a cancel function that was never set. *)
Theorem fatal_failures_are_reachable :
  (forall maxChanLen,
      run maxChanLen
        [OpStartConsumer "broker:9093" ["flows"] "group" (-1) None (inl 1);
         OpEnableManualErrorHandling;
         OpEnableManualErrorHandling] zeroWorld
      = Panic "close of closed channel") /\
  (forall maxChanLen,
      run maxChanLen
        [OpSetChannelLength (maxChanLen + 1);
         OpStartProducer "broker:9093" "flows-out" (inl 2)] zeroWorld
      = Panic "makechan: size out of range") /\
  (Setup ;;; Setup)
    (mkHandlerWorld (mkConsumer (Some 0) None None) [mkChan 0 false] [])
    = Panic "close of closed channel" /\
  ConsumerErrors zeroWorld
    = Panic "invalid memory address or nil pointer dereference" /\
  ConsumerNotifications zeroWorld
    = Panic "invalid memory address or nil pointer dereference" /\
  ProducerErrors zeroWorld
    = Panic "invalid memory address or nil pointer dereference" /\
  Consumer_Close (mkHandlerWorld (mkConsumer None None None) [] [])
    = Panic "invalid memory address or nil pointer dereference".
Proof.
  split; [intros maxChanLen; by destruct maxChanLen|].
  split.
  - intros maxChanLen. simpl. unfold_ops. simpl. rewrite make_chan_zero. simpl.
    unfold make_chan.
    assert (Hlt : (maxChanLen <? maxChanLen + 1)%N = true)
      by (apply N.ltb_lt; lia).
    by rewrite Hlt.
  - repeat split; reflexivity.
Qed.


(** * Further properties of the connector *)

(** ** The dial of the two [Start*] methods *)

(** X1: whatever credentials [SetAuth] has stored, [StartProducer] dials
    once, without looking up the certificate pool, with the configuration
    of [sarama.NewConfig()]: TLS off, SASL off, user and password empty,
    successes not returned, errors returned.  When the dial fails it returns
    the error, logs nothing, starts no goroutine, leaves the producer channel
    as it was and sets the producer to nil. *)
Theorem StartProducer_dial maxChanLen (u p broker topic : string)
    (dial : nat + string) (w w' : World) (r : error) :
  (SetAuth u p ;;; StartProducer maxChanLen broker topic dial) w = Done r w' ->
  (exists conf,
     calls_since w w' = [CallNewAsyncProducer (Split broker ",") conf] /\
     Producer_Net_TLS_Enable conf = false /\
     Producer_Net_SASL_Enable conf = false /\
     Producer_Net_SASL_User conf = "" /\
     Producer_Net_SASL_Password conf = "" /\
     Producer_Return_Successes conf = false /\
     Producer_Return_Errors conf = true) /\
  (forall e, dial = inr e ->
     r = Some e /\ spawned w' = spawned w /\ logged w' = logged w /\
     producer (conn w') = None /\
     producerChannel (conn w') = producerChannel (conn w)).
Proof.
  intros H. unfold calls_since.
  destruct w as [[u0 p0 co pr cc pc fl sg len] hs sp lg cl pcl].
  destruct fl, sg as [s|], dial as [h|de]; start_cases H;
    (split; [eexists; by rewrite drop_length_app|]); intros e He;
    by simplify_eq.
Qed.

Lemma StartProducer_dial_witness :
  exists w',
    (SetAuth "alice" "secret" ;;;
     StartProducer 1024 "a:9093,b:9093" "flows-out" (inr "kafka: no brokers"))
      session_world = Done (Some "kafka: no brokers") w' /\
    calls_since session_world w'
      = [CallNewAsyncProducer ["a:9093"; "b:9093"]
           (mkProducerConfig false false "" "" false true)] /\
    producer (conn w') = None /\ producerChannel (conn w') = Some 2.
Proof.
  eexists. split; [vm_compute; reflexivity|].
  match goal with
  | |- calls_since _ ?w' = _ /\ _ =>
      destruct (StartProducer_dial 1024 "alice" "secret" "a:9093,b:9093"
                  "flows-out" (inr "kafka: no brokers") session_world w'
                  (Some "kafka: no brokers")) as (_ & Hf)
  end.
  - vm_compute. reflexivity.
  - split; [reflexivity|].
    destruct (Hf "kafka: no brokers" eq_refl) as (_ & _ & _ & Hp & Hpc).
    split; [exact Hp|exact Hpc].
Defined.

(** X2: after [SetAuth u p], [StartConsumer] looks up the certificate pool
    and, when that succeeds, dials once, with TLS and SASL enabled, the user
    [u] and the password [p], errors and notifications returned, the given
    initial offset, and the broker string split at its commas; when the
    pool fails there is no dial. *)
Theorem StartConsumer_dials_with_credentials maxChanLen (u p broker : string)
    (topics : list string) (consumergroup : string) (offset : Z)
    (pool : error) (dial : nat + string) (w w' : World) (r : error) :
  (SetAuth u p ;;;
   StartConsumer maxChanLen broker topics consumergroup offset pool dial) w
    = Done r w' ->
  calls_since w w'
    = CallSystemCertPool ::
      match pool with
      | Some _ => []
      | None =>
          [CallNewConsumer (Split broker ",") consumergroup topics
             (mkConsumerConfig true true u p true true offset)]
      end.
Proof.
  intros H. unfold calls_since.
  destruct w as [[u0 p0 co pr cc pc fl sg len] hs sp lg cl pcl].
  destruct fl, sg as [s|], pool as [pe|], dial as [h|de]; start_cases H;
    by rewrite <- ?app_assoc, drop_length_app.
Qed.

Lemma StartConsumer_dials_with_credentials_witness :
  exists w',
    (SetAuth "alice" "secret" ;;;
     StartConsumer 1024 "a:9093,b:9093" ["flows"] "group" (-2) None (inl 7))
      zeroWorld = Done None w' /\
    calls_since zeroWorld w'
    = [CallSystemCertPool;
       CallNewConsumer ["a:9093"; "b:9093"] "group" ["flows"]
         (mkConsumerConfig true true "alice" "secret" true true (-2))].
Proof.
  eexists. split; [vm_compute; reflexivity|].
  match goal with
  | |- calls_since _ ?w' = _ =>
      apply (StartConsumer_dials_with_credentials 1024 "alice" "secret"
               "a:9093,b:9093" ["flows"] "group" (-2) None (inl 7)
               zeroWorld w' None)
  end.
  vm_compute. reflexivity.
Defined.

(** ** Restarting and closing *)

(** X3: a [StartConsumer] whose dial fails forgets the session the
    connector held: the consumer is nil afterwards while the consumer
    channel is still the old one, so a [CloseConsumer] that follows only
    logs its warning and makes no call into the library.  When it is the
    certificate pool that fails, the session is kept. *)
Theorem failed_restart_forgets_session maxChanLen (broker : string)
    (topics : list string) (consumergroup : string) (offset : Z)
    (pool : error) (dial : nat + string) (w w' : World) (e : string) :
  StartConsumer maxChanLen broker topics consumergroup offset pool dial w
    = Done (Some e) w' ->
  consumerChannel (conn w') = consumerChannel (conn w) /\
  match pool with
  | Some _ => consumer (conn w') = consumer (conn w)
  | None =>
      consumer (conn w') = None /\
      is_noop CloseConsumer w' /\ is_noop_with_warning CloseConsumer w'
  end.
Proof.
  intros H. unfold is_noop, is_noop_with_warning, lines_since.
  destruct w as [[u p co pr cc pc fl sg len] hs sp lg cl pcl].
  destruct fl, sg as [s|], pool as [pe|], dial as [h|de]; start_cases H;
    (split; [done|]); try done;
    (split; [done|]); unfold_ops; simpl;
    (split; eexists; (split; [reflexivity|]); simpl; repeat split; try done;
     by rewrite drop_length_app).
Qed.

Lemma failed_restart_forgets_session_witness :
  exists w',
    StartConsumer 1024 "broker:9093" ["flows"] "group" (-1) None
      (inr "kafka: invalid credentials") session_world
      = Done (Some "kafka: invalid credentials") w' /\
    consumer (conn session_world) = Some 1 /\
    consumer (conn w') = None /\
    consumerChannel (conn w') = Some 1 /\
    is_noop CloseConsumer w'.
Proof.
  eexists. split; [vm_compute; reflexivity|].
  match goal with
  | |- _ /\ consumer (conn ?w') = _ /\ _ =>
      destruct (failed_restart_forgets_session 1024 "broker:9093" ["flows"]
                  "group" (-1) None (inr "kafka: invalid credentials")
                  session_world w' "kafka: invalid credentials")
        as (Hch & Hco & Hno & _)
  end.
  - vm_compute. reflexivity.
  - split; [reflexivity|]. split; [exact Hco|]. split; [exact Hch|exact Hno].
Defined.

Lemma producer_closed_after_close (h : nat) (l : list nat) :
  bool_decide (h ∈ h :: l) = true.
Proof. apply bool_decide_eq_true_2. by left. Qed.

Lemma producer_open_after_dial (h : nat) (l : list nat) :
  bool_decide (h ∈ filter (fun x => x <> h) l) = false.
Proof.
  apply bool_decide_eq_false_2. intros Hin.
  apply list_elem_of_filter in Hin as [Hne _]. done.
Qed.

(** X4: [Close] and [CloseProducer] panic exactly when the producer the
    connector holds has been closed before.  A [Close] that returns leaves
    the connector as it is, the sessions included, and has called the
    library's Close on the consumer and then on the producer, whichever the
    connector holds, which is what [CloseConsumer] followed by
    [CloseProducer] calls.  Because the producer is not set to nil, a further
    [Close] or [CloseProducer] then panics when there is a producer, until a
    [StartProducer] that returns nil has put a new producer in its place. *)
Theorem Close_calls (w : World) :
  panics (Close w) = producer_closed w /\
  panics (CloseProducer w) = producer_closed w /\
  (forall w1, Close w = Done tt w1 ->
     conn w1 = conn w /\ chans w1 = chans w /\ spawned w1 = spawned w /\
     calls w1 = calls w ++ close_calls (conn w) /\
     (exists w2, (CloseConsumer ;;; CloseProducer) w = Done tt w2 /\
                 conn w2 = conn w1 /\ calls w2 = calls w1 /\
                 producersClosed w2 = producersClosed w1) /\
     panics (Close w1) = negb (isNil (producer (conn w))) /\
     panics (CloseProducer w1) = negb (isNil (producer (conn w)))) /\
  (forall maxChanLen broker topic dial w1,
     StartProducer maxChanLen broker topic dial w = Done None w1 ->
     panics (Close w1) = false /\ panics (CloseProducer w1) = false).
Proof.
  destruct w as [[u p co pr cc pc fl sg len] hs sp lg cl pcl].
  unfold producer_closed, close_calls.
  split; [|split; [|split]].
  - unfold_ops. simpl. destruct co as [hc|], pr as [hp|]; simpl; try done;
      by case_bool_decide.
  - unfold_ops. simpl. destruct pr as [hp|]; simpl; try done;
      by case_bool_decide.
  - intros w1 H. unfold_ops. simpl in *.
    destruct co as [hc|], pr as [hp|]; simpl in *;
      repeat case_bool_decide; simplify_eq; simpl;
      rewrite ?producer_closed_after_close; simpl;
      repeat split; rewrite <- ?app_assoc, ?app_nil_r; try done;
      by eexists.
  - intros maxChanLen broker topic dial w1 H.
    destruct fl, sg as [s|], dial as [h|de], co as [hc|]; start_cases H;
      rewrite ?producer_open_after_dial; simpl; done.
Qed.

Lemma Close_calls_witness :
  panics (Close session_world) = false /\
  panics (Close closed_world) = true /\
  panics (CloseProducer closed_world) = true.
Proof.
  destruct (Close_calls session_world) as (Hp & _ & Hd & _).
  split; [exact Hp|].
  destruct (Hd closed_world) as (_ & _ & _ & _ & _ & Hc & Hcp);
    [reflexivity|].
  split; [exact Hc|exact Hcp].
Defined.

(** ** Invariants of the channels *)

Lemma closed_is_snoc (h : ChanStore) (c : ChanRef) (b : bool) (x : Chan) :
  closed_is h c b -> closed_is (h ++ [x]) c b.
Proof.
  destruct c as [i|]; simpl; [|done]. intros Hc.
  destruct (h !! i) as [y|] eqn:Hi; [|done].
  by rewrite (lookup_app_l_Some _ _ _ _ Hi).
Qed.

Lemma closed_is_lt (h : ChanStore) (i : nat) (b : bool) :
  closed_is h (Some i) b -> i < List.length h.
Proof.
  simpl. destruct (h !! i) as [y|] eqn:Hi; [|done].
  intros _. by eapply lookup_lt_Some.
Qed.

Lemma closed_is_new (h : ChanStore) (n : N) :
  closed_is (h ++ [mkChan n false]) (Some (List.length h)) false.
Proof. simpl. by rewrite list_lookup_middle. Qed.

Lemma chan_inv_signal_new h cc pc :
  chan_inv h cc pc None false ->
  chan_inv (h ++ [mkChan 0 false]) cc pc (Some (List.length h)) false.
Proof.
  intros (Hc & Hp & _ & Hd & _).
  repeat split; auto using closed_is_snoc, closed_is_new.
  - intros -> . apply closed_is_lt in Hc. simplify_eq. lia.
  - intros -> . apply closed_is_lt in Hp. simplify_eq. lia.
Qed.

Lemma chan_inv_consumer_new h cc pc sg fl n :
  chan_inv h cc pc sg fl ->
  chan_inv (h ++ [mkChan n false]) (Some (List.length h)) pc sg fl.
Proof.
  intros (Hc & Hp & Hs & Hd & Hds).
  repeat split; auto using closed_is_snoc, closed_is_new.
  - intros i [= <-] ->. apply closed_is_lt in Hp. lia.
  - intros [= <-]. subst sg. apply closed_is_lt in Hs. lia.
  - by apply Hds.
Qed.

Lemma chan_inv_producer_new h cc pc sg fl n :
  chan_inv h cc pc sg fl ->
  chan_inv (h ++ [mkChan n false]) cc (Some (List.length h)) sg fl.
Proof.
  intros (Hc & Hp & Hs & Hd & Hds).
  repeat split; auto using closed_is_snoc, closed_is_new.
  - intros i -> [= <-]. apply closed_is_lt in Hc. lia.
  - by apply Hds.
  - intros [= <-]. subst sg. apply closed_is_lt in Hs. lia.
Qed.

Lemma closed_is_insert_ne (h : ChanStore) (c : ChanRef) (b : bool)
    (s : nat) (x : Chan) :
  c <> Some s -> closed_is h c b -> closed_is (<[s := x]> h) c b.
Proof.
  destruct c as [i|]; simpl; [|done]. intros Hne Hc.
  rewrite list_lookup_insert_ne; [done|]. intros ->. done.
Qed.

Lemma chan_inv_close_signal h cc pc s fl c :
  chan_inv h cc pc (Some s) fl -> h !! s = Some c ->
  chan_inv (<[s := mkChan (chan_cap c) true]> h) cc pc (Some s) true.
Proof.
  intros (Hc & Hp & Hs & Hd & Hds) Hl.
  destruct (Hds s eq_refl) as [Hn1 Hn2].
  repeat split; auto using closed_is_insert_ne.
  all: simpl; try (rewrite list_lookup_insert_eq; [done|]; by eapply lookup_lt_Some).
  all: by simplify_eq.
Qed.

Lemma chan_inv_flag_nil h cc pc fl :
  chan_inv h cc pc None fl -> chan_inv h cc pc None true.
Proof. intros (Hc & Hp & _ & Hd & _). by repeat split. Qed.

Lemma exec_world_inv maxChanLen op w w' :
  exec maxChanLen op w = Done tt w' -> world_inv w -> world_inv w'.
Proof.
  intros H. destruct w as [[u p co pr cc pc fl sg len] hs sp lg cl pcl].
  unfold world_inv.
  destruct fl, sg as [s|]; destruct op; simpl in H; exec_cases H; intros Hinv;
    eauto 6 using chan_inv_signal_new, chan_inv_consumer_new,
      chan_inv_producer_new, chan_inv_close_signal, chan_inv_flag_nil.
Qed.

Lemma world_inv_zeroWorld : world_inv zeroWorld.
Proof. by repeat split. Qed.

(** X5: in every state a calling sequence on a new connector reaches, the
    channels that [ConsumerChannel] and [ProducerChannel] return are open
    as far as the connector goes (no method of the connector closes them),
    they are two different channels, neither is the signal channel, and the
    signal channel, if there is one, is closed exactly when manual error
    handling is on. *)
Theorem typed_channels_stay_open maxChanLen (ops : list Op) (w : World) :
  run maxChanLen ops zeroWorld = Done tt w ->
  (forall ch, consumerChannel (conn w) = Some ch \/
              producerChannel (conn w) = Some ch ->
     chan_closed <$> chans w !! ch = Some false /\
     manualErrSignal (conn w) <> Some ch) /\
  (forall ch, consumerChannel (conn w) = Some ch ->
     producerChannel (conn w) <> Some ch) /\
  (forall s, manualErrSignal (conn w) = Some s ->
     chan_closed <$> chans w !! s = Some (manualErrFlag (conn w))).
Proof.
  intros Hr.
  pose proof (run_preserves maxChanLen world_inv (exec_world_inv maxChanLen)
                ops zeroWorld w Hr world_inv_zeroWorld) as (Hc & Hp & Hs & Hd & Hds).
  split; [|split].
  - intros ch [Hch|Hch]; rewrite Hch in *; (split; [done|]);
      intros Heq; destruct (Hds ch Heq); congruence.
  - intros ch Hch. by apply Hd.
  - intros s Heq. by rewrite Heq in Hs.
Qed.

Lemma typed_channels_stay_open_witness :
  chan_closed <$> chans restarted_world !! 3 = Some false /\
  manualErrSignal (conn restarted_world) <> Some 3.
Proof.
  destruct (typed_channels_stay_open 1024
              (session_ops ++
               [OpClose;
                OpStartConsumer "broker:9093" ["flows"] "group" (-1) None (inl 3)])
              restarted_world) as (Ho & _ & _).
  - vm_compute. reflexivity.
  - apply (Ho 3). left. reflexivity.
Defined.

(** X6: on a connector reached from a new one,
    [EnableManualErrorHandling] panics exactly when manual error handling
    is on already and a signal channel exists, that is, when it had been
    called before, after a [Start*] call made in the automatic mode;
    otherwise it returns with the flag set, the signal channel (if any)
    closed and everything else as it was. *)
Theorem EnableManualErrorHandling_panics_iff maxChanLen (ops : list Op)
    (w : World) :
  run maxChanLen ops zeroWorld = Done tt w ->
  panics (EnableManualErrorHandling w)
    = manualErrFlag (conn w) && negb (isNil (manualErrSignal (conn w))) /\
  (forall w', EnableManualErrorHandling w = Done tt w' ->
     manualErrFlag (conn w') = true /\
     closed_is (chans w') (manualErrSignal (conn w')) true /\
     conn w' = set_manualErrFlag true (conn w) /\
     List.length (chans w') = List.length (chans w) /\
     spawned w' = spawned w /\ logged w' = logged w /\ calls w' = calls w).
Proof.
  intros Hr.
  pose proof (run_preserves maxChanLen world_inv (exec_world_inv maxChanLen)
                ops zeroWorld w Hr world_inv_zeroWorld) as (_ & _ & Hs & _ & _).
  destruct w as [[u p co pr cc pc fl sg len] hs sp lg cl pcl]. simpl in *.
  unfold_ops. unfold close_chan. simpl.
  destruct sg as [s|]; simpl in *.
  - destruct (hs !! s) as [c|] eqn:Hl; simpl in *; [|done].
    inversion Hs as [Hc]. rewrite Hc.
    destruct fl; simpl; (split; [done|]); intros w' Heq; [done|].
    inversion Heq; subst; simpl. repeat split; try done.
    + rewrite list_lookup_insert_eq; [done|]. by eapply lookup_lt_Some.
    + by rewrite length_insert.
  - rewrite andb_false_r. split; [done|]. intros w' Heq.
    by inversion Heq; subst.
Qed.

Lemma EnableManualErrorHandling_panics_iff_witness :
  panics (EnableManualErrorHandling session_world) = false /\
  panics (EnableManualErrorHandling
            (world_after 1024 (session_ops ++ [OpEnableManualErrorHandling])))
    = true.
Proof.
  split.
  - destruct (EnableManualErrorHandling_panics_iff 1024 session_ops session_world)
      as [Hp _]; [vm_compute; reflexivity|]. exact Hp.
  - destruct (EnableManualErrorHandling_panics_iff 1024
                (session_ops ++ [OpEnableManualErrorHandling])
                (world_after 1024 (session_ops ++ [OpEnableManualErrorHandling])))
      as [Hp _]; [vm_compute; reflexivity|]. exact Hp.
Defined.

(** ** What calling sequences keep *)

Lemma exec_signal_kept maxChanLen op w w' :
  exec maxChanLen op w = Done tt w' ->
  (forall s, manualErrSignal (conn w) = Some s ->
             manualErrSignal (conn w') = Some s) /\
  (manualErrFlag (conn w) = true ->
   manualErrFlag (conn w') = true /\
   manualErrSignal (conn w') = manualErrSignal (conn w)).
Proof.
  intros H. destruct w as [[u p co pr cc pc fl sg len] hs sp lg cl pcl].
  destruct fl, sg as [s0|]; destruct op; simpl in H; exec_cases H;
    split; intros; simplify_eq; done.
Qed.

(** X7: the signal channel is made at most once: once the connector has
    one, every later call leaves that same channel in place, so all loggers
    wait on one channel; and once manual error handling is on, no call makes
    a signal channel, so a connector put in manual mode before its first
    start never has one. *)
Theorem signal_channel_made_once maxChanLen (ops : list Op) (w w' : World) :
  run maxChanLen ops w = Done tt w' ->
  (forall s, manualErrSignal (conn w) = Some s ->
             manualErrSignal (conn w') = Some s) /\
  (manualErrFlag (conn w) = true ->
   manualErrSignal (conn w') = manualErrSignal (conn w)).
Proof.
  revert w. induction ops as [|op ops IH]; intros w Hr.
  - simpl in Hr. unfold ret in Hr. by inversion Hr; subst.
  - apply run_cons_inv in Hr as (w1 & He & Hr).
    apply exec_signal_kept in He as [Hs Hf]. destruct (IH _ Hr) as [Hs' Hf'].
    split.
    + intros s Hsig. by apply Hs', Hs.
    + intros Hfl. destruct (Hf Hfl) as [Hfl1 Hsg1]. by rewrite Hf', Hsg1.
Qed.

Lemma signal_channel_made_once_witness :
  manualErrSignal (conn session_world) = Some 0 /\
  manualErrSignal (conn restarted_world) = Some 0 /\
  manualErrSignal (conn manual_started_world) = None.
Proof.
  split; [reflexivity|]. split.
  - destruct (signal_channel_made_once 1024
                [OpClose;
                 OpStartConsumer "broker:9093" ["flows"] "group" (-1) None (inl 3)]
                session_world restarted_world) as [Hs _].
    + vm_compute. reflexivity.
    + by apply Hs.
  - destruct (signal_channel_made_once 1024
                (manual_ops ++
                 [OpStartConsumer "broker:9093" ["flows"] "group" (-1) None (inl 2)])
                manual_world manual_started_world) as [_ Hf].
    + vm_compute. reflexivity.
    + by rewrite Hf.
Defined.

Lemma store_extends_refl (h : ChanStore) : store_extends h h.
Proof. intros i c Hl. by exists c. Qed.

Lemma store_extends_trans (h1 h2 h3 : ChanStore) :
  store_extends h1 h2 -> store_extends h2 h3 -> store_extends h1 h3.
Proof.
  intros H12 H23 i c Hl.
  destruct (H12 i c Hl) as (c2 & Hl2 & Hcap2 & Hcl2).
  destruct (H23 i c2 Hl2) as (c3 & Hl3 & Hcap3 & Hcl3).
  exists c3. split; [done|]. split; [congruence|auto].
Qed.

Lemma store_extends_snoc (h : ChanStore) (x : Chan) : store_extends h (h ++ [x]).
Proof. intros i c Hl. exists c. by rewrite (lookup_app_l_Some _ _ _ _ Hl). Qed.

Lemma store_extends_close (h : ChanStore) (s : nat) (c : Chan) :
  h !! s = Some c -> store_extends h (<[s := mkChan (chan_cap c) true]> h).
Proof.
  intros Hs i c0 Hl. destruct (decide (s = i)) as [->|Hne].
  - rewrite list_lookup_insert_eq by (by eapply lookup_lt_Some).
    simplify_eq. by eexists.
  - rewrite list_lookup_insert_ne by done. by exists c0.
Qed.

Lemma exec_store_extends maxChanLen op w w' :
  exec maxChanLen op w = Done tt w' -> store_extends (chans w) (chans w').
Proof.
  intros H. destruct w as [[u p co pr cc pc fl sg len] hs sp lg cl pcl].
  destruct fl, sg as [s0|]; destruct op; simpl in H; exec_cases H;
    eauto using store_extends_refl, store_extends_trans, store_extends_snoc,
      store_extends_close.
Qed.

Lemma exec_between_starts maxChanLen op w w' :
  is_start op = false ->
  exec maxChanLen op w = Done tt w' ->
  consumerChannel (conn w') = consumerChannel (conn w) /\
  producerChannel (conn w') = producerChannel (conn w) /\
  List.length (chans w') = List.length (chans w).
Proof.
  intros Hs H. destruct w as [[u p co pr cc pc fl sg len] hs sp lg cl pcl].
  destruct op; try discriminate; simpl in H; exec_cases H;
    by rewrite ?length_insert.
Qed.

Lemma store_extends_capacity (w w' : World) (c : ChanRef) :
  store_extends (chans w) (chans w') ->
  List.length (chans w') = List.length (chans w) ->
  channel_capacity w' c = channel_capacity w c.
Proof.
  intros He Hl. destruct c as [i|]; simpl; [|done].
  destruct (chans w !! i) as [ch|] eqn:Hi.
  - destruct (He i ch Hi) as (ch' & Hi' & Hcap & _). rewrite Hi'. simpl.
    by rewrite Hcap.
  - apply lookup_ge_None in Hi. rewrite <- Hl in Hi.
    apply lookup_ge_None in Hi. by rewrite Hi.
Qed.

(** X8: the typed channels change only at a start.  No call removes a
    channel of the store, reopens a closed one or changes a capacity; and a
    calling sequence without [StartConsumer] and [StartProducer] (setters,
    [SetChannelLength], [EnableManualErrorHandling], the [Close*] methods,
    accessors) leaves in the connector the same consumer channel and the
    same producer channel, each with the capacity it was made with, while
    the configured length is the one set last: [SetChannelLength] bears on
    the channels of later starts only. *)
Theorem channels_keep_capacity maxChanLen (ops : list Op) (w w' : World) :
  run maxChanLen ops w = Done tt w' ->
  store_extends (chans w) (chans w') /\
  (forallb (fun op => negb (is_start op)) ops = true ->
   consumerChannel (conn w') = consumerChannel (conn w) /\
   producerChannel (conn w') = producerChannel (conn w) /\
   channel_capacity w' (consumerChannel (conn w'))
     = channel_capacity w (consumerChannel (conn w)) /\
   channel_capacity w' (producerChannel (conn w'))
     = channel_capacity w (producerChannel (conn w)) /\
   channelLength (conn w')
     = configured_length (channelLength (conn w)) ops).
Proof.
  intros Hr.
  pose proof (run_relates maxChanLen
                (fun w w' => store_extends (chans w) (chans w'))
                (fun w => store_extends_refl (chans w))
                (fun w1 w2 w3 => store_extends_trans (chans w1) (chans w2) (chans w3))
                (exec_store_extends maxChanLen) ops w w' Hr) as Hext.
  split; [done|]. intros Hns.
  assert (Hsame : consumerChannel (conn w') = consumerChannel (conn w) /\
                  producerChannel (conn w') = producerChannel (conn w) /\
                  List.length (chans w') = List.length (chans w)).
  { clear Hext. revert w Hr. induction ops as [|op ops IH]; intros w Hr.
    - simpl in Hr. unfold ret in Hr. by inversion Hr; subst.
    - simpl in Hns. apply andb_true_iff in Hns as [Hop Hns].
      apply negb_true_iff in Hop.
      apply run_cons_inv in Hr as (w1 & He & Hr).
      destruct (exec_between_starts _ _ _ _ Hop He) as (Hc1 & Hp1 & Hl1).
      destruct (IH Hns _ Hr) as (Hc & Hp & Hl).
      by rewrite Hc, Hp, Hl. }
  destruct Hsame as (Hc & Hp & Hl).
  split; [done|]. split; [done|].
  rewrite Hc, Hp. split; [by apply store_extends_capacity|].
  split; [by apply store_extends_capacity|].
  by eapply run_channelLength.
Qed.

Lemma channels_keep_capacity_witness :
  consumerChannel (conn (world_after 1024
                           (session_ops ++ [OpSetChannelLength 64; OpClose])))
    = Some 1 /\
  channel_capacity (world_after 1024
                      (session_ops ++ [OpSetChannelLength 64; OpClose]))
    (Some 1) = Some 0%N /\
  channelLength (conn (world_after 1024
                         (session_ops ++ [OpSetChannelLength 64; OpClose])))
    = 64%N.
Proof.
  destruct (channels_keep_capacity 1024 [OpSetChannelLength 64; OpClose]
              session_world
              (world_after 1024
                 (session_ops ++ [OpSetChannelLength 64; OpClose])))
    as (_ & Hb).
  - vm_compute. reflexivity.
  - destruct (Hb eq_refl) as (Hc & _ & Hcap & _ & Hlen).
    split; [exact Hc|]. split; [|exact Hlen].
    rewrite Hc in Hcap. exact Hcap.
Defined.

Lemma exec_loggers_bridges maxChanLen op w w' :
  exec maxChanLen op w = Done tt w' ->
  loggers w <= bridges w /\
    (manualErrFlag (conn w) = false -> loggers w = bridges w) ->
  loggers w' <= bridges w' /\
    (manualErrFlag (conn w') = false -> loggers w' = bridges w').
Proof.
  intros H. destruct w as [[u p co pr cc pc fl sg len] hs sp lg cl pcl].
  unfold loggers, bridges.
  destruct fl, sg as [s0|]; destruct op; simpl in H; exec_cases H;
    intros [Hle Heq]; rewrite ?filter_app, ?length_app; simpl;
    (split; [|intros Hf; try discriminate; specialize (Heq eq_refl)]); lia.
Qed.

(** X9: every logger comes with a bridge: after any calling sequence on a
    new connector there are at most as many loggers as bridges among the
    goroutines started, and exactly as many as long as manual error handling
    was never enabled: each successful start in the automatic mode, a
    restart too, adds one more logger. *)
Theorem loggers_match_bridges maxChanLen (ops : list Op) (w : World) :
  run maxChanLen ops zeroWorld = Done tt w ->
  loggers w <= bridges w /\
  (manualErrFlag (conn w) = false -> loggers w = bridges w).
Proof.
  intros Hr.
  apply (run_preserves maxChanLen
           (fun w => loggers w <= bridges w /\
                     (manualErrFlag (conn w) = false -> loggers w = bridges w))
           (exec_loggers_bridges maxChanLen) ops zeroWorld w Hr).
  by split.
Qed.

Lemma loggers_match_bridges_witness :
  loggers restarted_world = 3 /\ bridges restarted_world = 3 /\
  loggers manual_started_world = 0 /\ bridges manual_started_world = 2.
Proof.
  destruct (loggers_match_bridges 1024
              (session_ops ++
               [OpClose;
                OpStartConsumer "broker:9093" ["flows"] "group" (-1) None (inl 3)])
              restarted_world) as [_ Heq]; [vm_compute; reflexivity|].
  split; [rewrite (Heq eq_refl)|]; repeat split; reflexivity.
Defined.

Lemma last_chan_snoc (l : list ChanRef) (c : ChanRef) :
  last_chan (l ++ [c]) = c.
Proof. unfold last_chan. by rewrite last_snoc. Qed.

Lemma exec_last_bridge maxChanLen op w w' :
  exec maxChanLen op w = Done tt w' ->
  last_chan (decode_outs (spawned w)) = consumerChannel (conn w) /\
  last_chan (encode_inps (spawned w)) = producerChannel (conn w) ->
  last_chan (decode_outs (spawned w')) = consumerChannel (conn w') /\
  last_chan (encode_inps (spawned w')) = producerChannel (conn w').
Proof.
  intros H. destruct w as [[u p co pr cc pc fl sg len] hs sp lg cl pcl].
  unfold decode_outs, encode_inps.
  destruct fl, sg as [s0|]; destruct op; simpl in H; exec_cases H;
    intros [Hd He]; rewrite ?omap_app; simpl;
    rewrite ?app_nil_r, ?last_chan_snoc; done.
Qed.

(** X10: after any calling sequence on a new connector, [ConsumerChannel]
    returns the channel that was handed to the decoder started last, and
    [ProducerChannel] the one handed to the encoder started last; each
    returns nil as long as no such bridge was started.  Neither accessor
    changes anything. *)
Theorem accessors_return_last_bridge_channel maxChanLen (ops : list Op)
    (w : World) :
  run maxChanLen ops zeroWorld = Done tt w ->
  ConsumerChannel w = Done (last_chan (decode_outs (spawned w))) w /\
  ProducerChannel w = Done (last_chan (encode_inps (spawned w))) w.
Proof.
  intros Hr.
  destruct (run_preserves maxChanLen
              (fun w => last_chan (decode_outs (spawned w)) = consumerChannel (conn w) /\
                        last_chan (encode_inps (spawned w)) = producerChannel (conn w))
              (exec_last_bridge maxChanLen) ops zeroWorld w Hr) as [Hd He];
    [by split|].
  unfold_ops. by rewrite Hd, He.
Qed.

Lemma accessors_return_last_bridge_channel_witness :
  ConsumerChannel restarted_world = Done (Some 3) restarted_world /\
  ProducerChannel restarted_world = Done (Some 2) restarted_world /\
  ConsumerChannel zeroWorld = Done None zeroWorld.
Proof.
  destruct (accessors_return_last_bridge_channel 1024
              (session_ops ++
               [OpClose;
                OpStartConsumer "broker:9093" ["flows"] "group" (-1) None (inl 3)])
              restarted_world) as [Hc Hp]; [vm_compute; reflexivity|].
  destruct (accessors_return_last_bridge_channel 1024 [] zeroWorld) as [Hz _];
    [reflexivity|].
  split; [exact Hc|]. split; [exact Hp|exact Hz].
Defined.

(** X11: after a [StartConsumer] that returned nil, [ConsumerErrors] and
    [ConsumerNotifications] return the channels of the session just dialled
    and change nothing; after one whose dial failed they panic on the nil
    session, also when an earlier session was running. *)
Theorem consumer_accessors_after_start maxChanLen (broker : string)
    (topics : list string) (consumergroup : string) (offset : Z)
    (dial : nat + string) (w w' : World) (r : error) :
  StartConsumer maxChanLen broker topics consumergroup offset None dial w
    = Done r w' ->
  match dial with
  | inl h =>
      r = None /\
      ConsumerErrors w' = Done (ConsumerErrorsOf h) w' /\
      ConsumerNotifications w' = Done (ConsumerNotificationsOf h) w'
  | inr e =>
      r = Some e /\
      panics (ConsumerErrors w') = true /\
      panics (ConsumerNotifications w') = true
  end.
Proof.
  intros H. destruct w as [[u p co pr cc pc fl sg len] hs sp lg cl pcl].
  destruct fl, sg as [s|], dial as [h|de]; start_cases H; done.
Qed.

Lemma consumer_accessors_after_start_witness :
  ConsumerErrors restarted_world = Done (ConsumerErrorsOf 3) restarted_world /\
  ConsumerNotifications restarted_world
    = Done (ConsumerNotificationsOf 3) restarted_world.
Proof.
  destruct (consumer_accessors_after_start 1024 "broker:9093" ["flows"] "group"
              (-1) (inl 3) closed_world restarted_world None) as (_ & He & Hn).
  - vm_compute. reflexivity.
  - split; [exact He|exact Hn].
Defined.

(** ** The password and the log *)

Lemma exec_redact maxChanLen op w1 w2 :
  same_but_password w1 w2 ->
  match exec maxChanLen op w1, exec maxChanLen (redact op) w2 with
  | Done _ w1', Done _ w2' => same_but_password w1' w2'
  | Panic m1, Panic m2 => m1 = m2
  | _, _ => False
  end.
Proof.
  destruct w1 as [[u1 p1 co1 pr1 cc1 pc1 fl1 sg1 len1] hs1 sp1 lg1 cl1 pcl1].
  destruct w2 as [[u2 p2 co2 pr2 cc2 pc2 fl2 sg2 len2] hs2 sp2 lg2 cl2 pcl2].
  unfold same_but_password. simpl. intros (Hc & Hh & Hs & Hl & Hp).
  inversion Hc; subst.
  destruct fl2, sg2 as [s|]; destruct op; simpl;
    unfold_ops; unfold make_chan, close_chan; simpl;
    repeat (case_match; simpl in *; simplify_eq; try done).
  all: repeat split; reflexivity.
Qed.

(** X12: the password never reaches the log.  A calling sequence and the
    same sequence with every password taken out (the password argument of
    [SetAuth], the KAFKA_SASL_PASS of the environment) panic or return
    alike and, when they return, have written the same lines to the log,
    made the same channels and started the same goroutines. *)
Theorem password_is_not_logged maxChanLen (ops : list Op) :
  log_of (run maxChanLen ops zeroWorld)
    = log_of (run maxChanLen (map redact ops) zeroWorld) /\
  match run maxChanLen ops zeroWorld,
        run maxChanLen (map redact ops) zeroWorld with
  | Done _ w1, Done _ w2 => same_but_password w1 w2
  | Panic m1, Panic m2 => m1 = m2
  | _, _ => False
  end.
Proof.
  assert (Hgen : forall w1 w2, same_but_password w1 w2 ->
            match run maxChanLen ops w1,
                  run maxChanLen (map redact ops) w2 with
            | Done _ w1', Done _ w2' => same_but_password w1' w2'
            | Panic m1, Panic m2 => m1 = m2
            | _, _ => False
            end).
  { induction ops as [|op ops IH]; intros w1 w2 Hsim; [done|].
    simpl. unfold bind. pose proof (exec_redact maxChanLen op w1 w2 Hsim) as He.
    destruct (exec maxChanLen op w1) as [[] w1'|m1],
             (exec maxChanLen (redact op) w2) as [[] w2'|m2]; try done.
    by apply IH. }
  assert (H0 : same_but_password zeroWorld zeroWorld) by done.
  specialize (Hgen zeroWorld zeroWorld H0).
  destruct (run maxChanLen ops zeroWorld) as [[] w1|m1],
           (run maxChanLen (map redact ops) zeroWorld) as [[] w2|m2];
    simpl in *; try done.
  split; [|done]. destruct Hgen as (_ & _ & _ & Hl & _). by rewrite Hl.
Qed.

(** * Further properties of calling sequences *)

Lemma exec_auth maxChanLen op w w' :
  exec maxChanLen op w = Done tt w' ->
  (user (conn w'), pass (conn w'))
    = configured_auth (user (conn w), pass (conn w)) [op].
Proof.
  intros H. destruct w as [[u p co pr cc pc fl sg len] hs sp lg cl pcl].
  destruct fl, sg as [s0|]; destruct op; simpl in H; exec_cases H; done.
Qed.

Lemma run_auth maxChanLen ops w w' :
  run maxChanLen ops w = Done tt w' ->
  (user (conn w'), pass (conn w'))
    = configured_auth (user (conn w), pass (conn w)) ops.
Proof.
  revert w. induction ops as [|op ops IH]; intros w Hr.
  - simpl in Hr. unfold ret in Hr. by inversion Hr; subst.
  - apply run_cons_inv in Hr as (w1 & He & Hr).
    rewrite (IH _ Hr), (exec_auth _ _ _ _ He). done.
Qed.

(** X13: the credentials a [StartConsumer] dials with are those of the
    last of [SetAuth], [SetAuthAnon] and [SetAuthFromEnv] called before it
    (empty ones on a new connector); a [SetAuthFromEnv] counts with whatever
    it read, also when it returned an error. *)
Theorem dial_uses_last_credentials maxChanLen (ops : list Op) (w w' : World)
    (broker : string) (topics : list string) (consumergroup : string)
    (offset : Z) (dial : nat + string) (r : error) :
  run maxChanLen ops zeroWorld = Done tt w ->
  StartConsumer maxChanLen broker topics consumergroup offset None dial w
    = Done r w' ->
  calls_since w w'
    = [CallSystemCertPool;
       CallNewConsumer (Split broker ",") consumergroup topics
         (mkConsumerConfig true true
            (fst (configured_auth ("", "") ops))
            (snd (configured_auth ("", "") ops)) true true offset)].
Proof.
  intros Hr H. apply run_auth in Hr. simpl in Hr. rewrite <- Hr. simpl.
  unfold calls_since. clear Hr.
  destruct w as [[u p co pr cc pc fl sg len] hs sp lg cl pcl].
  destruct fl, sg as [s|], dial as [h|de]; start_cases H;
    by rewrite <- ?app_assoc, drop_length_app.
Qed.

Lemma dial_uses_last_credentials_witness :
  calls_since
    (world_after 1024 [OpSetAuth "alice" "secret"; OpSetAuthFromEnv ∅])
    (world_after 1024
       [OpSetAuth "alice" "secret"; OpSetAuthFromEnv ∅;
        OpStartConsumer "broker:9093" ["flows"] "group" (-1) None (inl 1)])
  = [CallSystemCertPool;
     CallNewConsumer ["broker:9093"] "group" ["flows"]
       (mkConsumerConfig true true "" "" true true (-1))].
Proof.
  assert (H1 : run 1024 [OpSetAuth "alice" "secret"; OpSetAuthFromEnv ∅] zeroWorld
               = Done tt (world_after 1024
                            [OpSetAuth "alice" "secret"; OpSetAuthFromEnv ∅]))
    by (vm_compute; reflexivity).
  pose proof (dial_uses_last_credentials 1024
                [OpSetAuth "alice" "secret"; OpSetAuthFromEnv ∅] _
                (world_after 1024
                   [OpSetAuth "alice" "secret"; OpSetAuthFromEnv ∅;
                    OpStartConsumer "broker:9093" ["flows"] "group" (-1)
                      None (inl 1)])
                "broker:9093" ["flows"] "group" (-1) (inl 1) None H1) as Hx.
  vm_compute in Hx. vm_compute. apply Hx. reflexivity.
Defined.



(** * Further properties of the consumer-group handler *)

(** X15: [Setup] (with [ready] nil or a channel of the store) returns
    exactly when [ready] is an open channel.  It then returns nil, has made
    a new unbuffered open channel for [flows], has closed [ready] and has
    left the cancel function and every other channel alone, the previous
    flows channel too; a second [Setup] on the consumer it leaves panics. *)
Theorem Setup_returns_iff_ready_open (hw : HandlerWorld) :
  in_store (hchans hw) (ready (cons hw)) ->
  panics (Setup hw) = negb (is_open_chan (hchans hw) (ready (cons hw))) /\
  (forall e hw', Setup hw = Done e hw' ->
     e = None /\
     flows (cons hw') = Some (List.length (hchans hw)) /\
     hchans hw' !! List.length (hchans hw) = Some (mkChan 0 false) /\
     ready (cons hw') = ready (cons hw) /\
     is_open_chan (hchans hw') (ready (cons hw')) = false /\
     cancel (cons hw') = cancel (cons hw) /\
     cancelled hw' = cancelled hw /\
     (forall i, ready (cons hw) <> Some i -> i < List.length (hchans hw) ->
                hchans hw' !! i = hchans hw !! i) /\
     panics (Setup hw') = true).
Proof.
  destruct hw as [[r f c] h cl].
  unfold Setup, onHandlerChans, getCons, modCons, bind, ret, close_chan. simpl.
  intros Hin. destruct r as [i|]; simpl in *; [|done].
  rewrite (lookup_app_l _ _ _ Hin).
  destruct (h !! i) as [c0|] eqn:Hi; simpl; [|done].
  destruct (chan_closed c0) eqn:Hc0; simpl; [done|].
  split; [done|]. intros e hw' Heq. inversion Heq; subst; simpl.
  assert (Hi' : (h ++ [mkChan 0 false]) !! i = Some c0)
    by (by rewrite (lookup_app_l _ _ _ Hin)).
  repeat split.
  - rewrite list_lookup_insert_ne by lia. by rewrite list_lookup_middle.
  - rewrite list_lookup_insert_eq; [done|]. rewrite length_app. simpl. lia.
  - intros j Hne Hj. rewrite list_lookup_insert_ne by congruence.
    by rewrite lookup_app_l.
  - assert (Hlt : i < List.length (<[i := mkChan (chan_cap c0) true]>
                                     (h ++ [mkChan 0 false])))
      by (rewrite length_insert, length_app; simpl; lia).
    rewrite (lookup_app_l _ _ _ Hlt).
    rewrite list_lookup_insert_eq by (rewrite length_app; simpl; lia). done.
Qed.

Lemma Setup_returns_iff_ready_open_witness :
  panics (Setup (mkHandlerWorld (mkConsumer (Some 0) None None)
                   [mkChan 0 false] [])) = false /\
  panics (Setup sample_handler) = true /\
  panics (Setup (mkHandlerWorld (mkConsumer None None None) [] [])) = true.
Proof.
  destruct (Setup_returns_iff_ready_open
              (mkHandlerWorld (mkConsumer (Some 0) None None) [mkChan 0 false] []))
    as [Hp Hd]; [simpl; lia|].
  split; [exact Hp|]. split.
  - destruct (Hd None sample_handler) as (_ & _ & _ & _ & _ & _ & _ & _ & H2);
      [reflexivity|exact H2].
  - destruct (Setup_returns_iff_ready_open
                (mkHandlerWorld (mkConsumer None None None) [] [])) as [Hp0 _];
      [done|exact Hp0].
Defined.

Section ConsumeClaimMore.

Context {FlowMessage : Type}.
Variable Unmarshal : list Byte.byte -> FlowMessage + string.
Context {S : Type} `{ConsumerGroupSession S}.

(** X16: whatever the state of the flows channel, [ConsumeClaim] never
    returns an error: when it returns, it returns nil and has marked every
    message of the claim.  The messages it has marked are a prefix of the
    claim, the session has been told of exactly those, and each of them was
    either sent or logged, except the one a send that did not return was
    for. *)
Theorem ConsumeClaim_accounts_for_messages (consumer : Consumer)
    (h : ChanStore) (session : S) (messages : list ConsumerMessage) :
  let r := ConsumeClaim Unmarshal consumer h session messages in
  marked r `prefix_of` messages /\
  session_after r = mark_all session (marked r) /\
  List.length (marked r)
    = List.length (delivered r) + List.length (log_lines r) + in_flight (status r) /\
  (forall e, status r = Returned e -> e = None /\ marked r = messages).
Proof.
  revert session. induction messages as [|m rest IH]; intros session.
  - simpl. split; [done|]. split; [done|]. split; [done|].
    by intros e [= <-].
  - simpl. destruct (IH (MarkMessage session m "")) as (Hp & Hs & Hl & Hr).
    unfold marked, delivered, log_lines in *.
    destruct (Unmarshal (Value m)) as [flowMsg|err]; simpl.
    + destruct (send_status (flows consumer) h) as [ch| |]; simpl.
      * repeat split.
        -- by apply prefix_cons.
        -- done.
        -- unfold omap in *. simpl in *. lia.
        -- by apply Hr.
        -- f_equal. by eapply Hr.
      * repeat split; try done. apply prefix_cons, prefix_nil.
      * repeat split; try done. apply prefix_cons, prefix_nil.
    + repeat split.
      * by apply prefix_cons.
      * done.
      * unfold omap in *. simpl in *. lia.
      * by apply Hr.
      * f_equal. by eapply Hr.
Qed.

(** X17: with a nil flows channel (no [Setup] before the claim) nothing is
    ever delivered and the loop never panics: messages that do not decode
    are marked and logged as usual, and at the first message that decodes the
    loop marks it and then blocks for ever on the send, so that message is
    marked without having been handed on.  A claim with no decodable message
    is run to its end. *)
Theorem ConsumeClaim_nil_flows (consumer : Consumer) (h : ChanStore)
    (session : S) (messages : list ConsumerMessage) :
  flows consumer = None ->
  let r := ConsumeClaim Unmarshal consumer h session messages in
  delivered r = [] /\
  status r = (if bool_decide (decodes Unmarshal messages = [])
              then Returned None else BlockedOnSend) /\
  (forall before m after flowMsg,
      messages = before ++ m :: after ->
      decodes Unmarshal before = [] ->
      Unmarshal (Value m) = inl flowMsg ->
      marked r = before ++ [m] /\
      session_after r = mark_all session (before ++ [m]) /\
      List.length (log_lines r) = List.length before).
Proof.
  intros Hf r. subst r. revert session.
  induction messages as [|m rest IH]; intros session.
  - simpl. split; [done|]. split; [done|].
    intros before m after flowMsg Heq. by destruct before.
  - simpl. rewrite Hf. simpl.
    destruct (IH (MarkMessage session m "")) as (Hd & Hs & Hb).
    unfold marked, delivered, log_lines, decodes in *.
    destruct (Unmarshal (Value m)) as [f0|err] eqn:Hm; simpl.
    + split; [done|]. split; [done|].
      intros before m' after flowMsg Heq Hdec Hm'.
      destruct before as [|b before]; simpl in *; simplify_eq; [done|].
      by rewrite Hm in Hdec.
    + split; [done|]. split; [done|].
      intros before m' after flowMsg Heq Hdec Hm'.
      destruct before as [|b before]; simpl in *; simplify_eq; [congruence|].
      rewrite Hm in Hdec. simpl in Hdec.
      destruct (Hb before m' after flowMsg eq_refl Hdec Hm') as (H1 & H2 & H3).
      unfold omap in *. simpl in *. by rewrite H1, H2, H3.
Qed.

Lemma prepend_prepend (a b : list (@ClaimEvent FlowMessage))
    (r : @ClaimRun FlowMessage S) :
  prepend a (prepend b r) = prepend (a ++ b) r.
Proof. unfold prepend. simpl. by rewrite app_assoc. Qed.

(** X18: the loop carries nothing from one message to the next but the
    session: on a claim that continues another, [ConsumeClaim] does what it
    does on the first part and then, if that run returned, what it does on
    the second part from the session the first run left; if the first run
    did not return, the second part is never looked at. *)
Theorem ConsumeClaim_app (consumer : Consumer) (h : ChanStore) (session : S)
    (first second : list ConsumerMessage) :
  let r1 := ConsumeClaim Unmarshal consumer h session first in
  ConsumeClaim Unmarshal consumer h session (first ++ second)
  = match status r1 with
    | Returned _ =>
        prepend (events r1)
          (ConsumeClaim Unmarshal consumer h (session_after r1) second)
    | _ => r1
    end.
Proof.
  revert session. induction first as [|m rest IH]; intros session.
  - simpl. by destruct (ConsumeClaim Unmarshal consumer h session second).
  - simpl. rewrite IH.
    destruct (Unmarshal (Value m)) as [flowMsg|err]; simpl.
    + destruct (send_status (flows consumer) h) as [ch| |]; simpl; [|done..].
      destruct (status (ConsumeClaim Unmarshal consumer h
                          (MarkMessage session m "") rest));
        [by rewrite prepend_prepend|done..].
    + destruct (status (ConsumeClaim Unmarshal consumer h
                          (MarkMessage session m "") rest));
        [by rewrite prepend_prepend|done..].
Qed.

End ConsumeClaimMore.

Lemma ConsumeClaim_nil_flows_witness :
  let r := ConsumeClaim sample_Unmarshal (mkConsumer (Some 0) None None)
             [mkChan 0 false] 0%Z [broken2; good3; good1] in
  delivered r = [] /\ status r = BlockedOnSend /\
  marked r = [broken2; good3] /\ session_after r = 43%Z.
Proof.
  destruct (ConsumeClaim_nil_flows sample_Unmarshal (mkConsumer (Some 0) None None)
              [mkChan 0 false] 0%Z [broken2; good3; good1] eq_refl)
    as (Hd & Hs & Hb).
  destruct (Hb [broken2] good3 [good1] [x03] eq_refl eq_refl eq_refl)
    as (Hm & Hse & _).
  split; [exact Hd|]. split; [exact Hs|]. split; [exact Hm|exact Hse].
Defined.

(** * The broker list *)

Lemma Split_not_nil (s : string) (sep : Ascii.ascii) : Split s sep <> [].
Proof.
  destruct s as [|c rest]; simpl; [done|].
  destruct (Ascii.eqb c sep); [done|]. by destruct (Split rest sep).
Qed.

(** X19: the broker string of [StartConsumer] and [StartProducer] is cut at
    each comma and nothing is lost: joining the pieces with commas gives the
    string back, there is one piece more than there are commas (so one
    piece, the string itself, when there is none, and one empty piece for
    the empty string), and no piece contains a comma. *)
Theorem Split_Join (s : string) (sep : Ascii.ascii) :
  Join (Split s sep) sep = s /\
  List.length (Split s sep) = 1 + occurrences sep s /\
  Forall (fun piece => occurrences sep piece = 0) (Split s sep) /\
  (occurrences sep s = 0 -> Split s sep = [s]).
Proof.
  induction s as [|c rest (Hj & Hl & Hf & H0)]; simpl.
  - repeat split; auto.
  - pose proof (Split_not_nil rest sep) as Hne.
    destruct (Ascii.eqb_spec c sep) as [->|Hc]; simpl.
    + destruct (Split rest sep) as [|w ws] eqn:Hs; [done|].
      repeat split.
      * simpl. simpl in Hj. by rewrite Hj.
      * simpl in *. lia.
      * constructor; [done|exact Hf].
      * lia.
    + destruct (Split rest sep) as [|w ws] eqn:Hs; [done|].
      repeat split.
      * simpl in *. destruct ws; simpl in *; by rewrite <- Hj.
      * simpl in *. lia.
      * inversion Hf; subst. constructor; [|done]. simpl.
        destruct (Ascii.eqb_spec c sep); [done|]. simpl. done.
      * intros Hz. simpl in Hz. specialize (H0 Hz). by simplify_eq.
Qed.

Lemma Split_Join_witness :
  Split "a:9093,b:9093" "," = ["a:9093"; "b:9093"] /\
  Split "broker:9093" "," = ["broker:9093"] /\
  Split "" "," = [""].
Proof.
  split; [reflexivity|]. split; [|reflexivity].
  destruct (Split_Join "broker:9093" ",") as (_ & _ & _ & H0).
  apply H0. reflexivity.
Defined.
